(** * SD card inventory: the store operations of [app.py]

    A shallow embedding of the [sdcards] table, of the seeding routine
    [insert_initial_data] and of the methods of [SDCardApp], followed by the
    properties of the checkout / return life cycle.

    Conventions.
    - A table is the list of its rows in rowid order.  [id] is the
      [INTEGER PRIMARY KEY] column, the other columns are as declared by
      [init_db]; the three nullable text columns and the nullable timestamp
      are [option]s, [None] standing for SQL [NULL] (Python [None]).
    - The status and container names are the literals of the source.  The
      specification writes AVAILABLE for the status ['在庫あり'], CHECKED_OUT for
      ['貸出中'], and calls the containers SD1, SD2 and microSD where the source
      stores ['SDカード1'], ['SDカード2'] and ['マイクロSDカード'].
    - [SDCardApp] methods run on a connection: the rows it sees, the snapshot
      taken by [BEGIN] while a transaction is open, the store exceptions the
      engine is about to raise, and the number of clock readings made so far.
      Python exceptions are carried by their [str()] text.
    - Ids are integers as SQLite stores them and a batch is a list of them,
      as the selection of the user interface is. *)

From Stdlib Require Import ZArith List String Ascii Bool Lia Permutation.
From Stdlib Require Import DecimalString FinFun.
Import ListNotations.
Local Open Scope string_scope.
Local Open Scope list_scope.
Local Open Scope Z_scope.

(** ** The [sdcards] table *)

Definition Timestamp := string.

Record Card := mkCard {
  id : Z;
  card_number : string;
  card_index : Z;
  status : string;
  capacity : string;
  checkout_date : option Timestamp;
  user_name : option string;
  equipment : option string;
  case_number : string;
  shoot_content : option string
}.

Definition Table := list Card.

(** The two status literals. *)
Definition AVAILABLE : string := "在庫あり".
Definition CHECKED_OUT : string := "貸出中".

(** The three container literals. *)
Definition SD1 : string := "SDカード1".
Definition SD2 : string := "SDカード2".
Definition microSD : string := "マイクロSDカード".

(** Python's [str] on an integer, also used by the f-strings. *)
Definition str (n : Z) : string := NilZero.string_of_int (Z.to_int n).

(** ** Seeding: [insert_initial_data] *)

(** [INSERT INTO sdcards (card_number, card_index, status, capacity,
    case_number) VALUES (?, ?, '在庫あり', ?, ?)].  The rowid is one more than
    the largest one in use, the columns left out are [NULL], and the [UNIQUE]
    constraint on [card_number] makes the statement raise ([None]). *)
Definition next_id (db : Table) : Z :=
  fold_right (fun c m => Z.max (id c) m) 0 db + 1.

Definition insert (label : string) (idx : Z) (cap case : string) (db : Table)
  : option Table :=
  if existsb (fun c => card_number c =? label)%string db then None
  else Some (db ++ [mkCard (next_id db) label idx AVAILABLE cap
                           None None None case None]).

(** A [for] loop of inserts; an exception ends it. *)
Fixpoint insert_all (f : Z -> Table -> option Table) (nums : list Z)
  (db : Table) : option Table :=
  match nums with
  | [] => Some db
  | num :: rest =>
      match f num db with
      | Some db' => insert_all f rest db'
      | None => None
      end
  end.

(** [list(range(1, 41))]. *)
Definition range_1_41 : list Z := map Z.of_nat (seq 1 40).

(** The capacity loop: one entry is appended for a number inside a band and
    nothing for a number outside all three. *)
Definition capacities (card_numbers : list Z) : list string :=
  flat_map (fun num =>
    if (1 <=? num) && (num <=? 11) then ["32G"]
    else if (12 <=? num) && (num <=? 18) then ["64G"]
    else if (19 <=? num) && (num <=? 40) then ["128G"]
    else []) card_numbers.

Fixpoint insert_zipped (rows : list (Z * string)) (db : Table) : option Table :=
  match rows with
  | [] => Some db
  | (num, cap) :: rest =>
      match insert ("SD1-" ++ str num) num cap SD1 db with
      | Some db' => insert_zipped rest db'
      | None => None
      end
  end.

(** The whole routine on the committed table: nothing happens unless
    [SELECT COUNT( * )] is 0. *)
Definition insert_initial_data (db : Table) : option Table :=
  if (Z.of_nat (List.length db) =? 0) then
    let card_numbers := range_1_41 in
    match insert_zipped (combine card_numbers (capacities card_numbers)) db with
    | None => None
    | Some db1 =>
        match insert_all (fun num => insert ("SD2-" ++ str num) num "64G" SD2)
                range_1_41 db1 with
        | None => None
        | Some db2 =>
            insert_all (fun num => insert ("microSD-" ++ str num) num "32G" microSD)
              range_1_41 db2
        end
    end
  else Some db.

Definition seeded : Table :=
  match insert_initial_data [] with Some db => db | None => [] end.

(** ** Connections, exceptions and transactions *)

(** A Python exception, by its [str()]. *)
Definition Exn := string.

(** A store exception the engine is about to raise.  Some of them (disk full,
    I/O error, out of memory) end the open transaction on their own, so that a
    later [ROLLBACK] finds none. *)
Record Fault := mkFault {
  fault_text : string;
  ends_transaction : bool
}.

Record Conn := mkConn {
  rows : Table;                    (* what this connection reads *)
  saved : option Table;            (* the table as of BEGIN, when inside one *)
  pending : list (option Fault);   (* per coming statement: the fault it hits *)
  clock : nat                      (* readings of the clock made so far *)
}.

Inductive Result (A : Type) : Type :=
| Returned (a : A)
| Raised (e : Exn).
Arguments Returned {A} a.
Arguments Raised {A} e.

Definition M (A : Type) : Type := Conn -> Result A * Conn.

Definition ret {A} (a : A) : M A := fun w => (Returned a, w).

Definition bind {A B} (m : M A) (k : A -> M B) : M B := fun w =>
  match m w with
  | (Returned a, w') => k a w'
  | (Raised e, w') => (Raised e, w')
  end.

(** [try: body except Exception as e: handler(e)]. *)
Definition try_except {A} (body : M A) (handler : Exn -> M A) : M A := fun w =>
  match body w with
  | (Returned a, w') => (Returned a, w')
  | (Raised e, w') => handler e w'
  end.

Notation "x <- m ;; k" := (bind m (fun x => k))
  (at level 61, m at next level, right associativity).
Notation "m ;; k" := (bind m (fun _ => k))
  (at level 61, right associativity).

Fixpoint for_each {A} (l : list A) (body : A -> M unit) : M unit :=
  match l with
  | [] => ret tt
  | a :: rest => body a ;; for_each rest body
  end.

(** The engine dropping the open transaction. *)
Definition abandon (w : Conn) : Conn :=
  match saved w with
  | Some s => mkConn s None (pending w) (clock w)
  | None => w
  end.

(** [c.execute(...)]: the statement hits the fault scheduled for it, if any,
    and otherwise has its effect [sem]. *)
Definition execute {A} (sem : Conn -> Result A * Conn) : M A := fun w =>
  match pending w with
  | Some f :: fs =>
      let w' := mkConn (rows w) (saved w) fs (clock w) in
      (Raised (fault_text f), if ends_transaction f then abandon w' else w')
  | None :: fs => sem (mkConn (rows w) (saved w) fs (clock w))
  | [] => sem w
  end.

Definition BEGIN : M unit := execute (fun w =>
  match saved w with
  | Some _ => (Raised "cannot start a transaction within a transaction", w)
  | None => (Returned tt, mkConn (rows w) (Some (rows w)) (pending w) (clock w))
  end).

Definition ROLLBACK : M unit := execute (fun w =>
  match saved w with
  | Some s => (Returned tt, mkConn s None (pending w) (clock w))
  | None => (Raised "cannot rollback - no transaction is active", w)
  end).

Definition COMMIT : M unit := execute (fun w =>
  match saved w with
  | Some _ => (Returned tt, mkConn (rows w) None (pending w) (clock w))
  | None => (Raised "cannot commit - no transaction is active", w)
  end).

(** A [SELECT] followed by the fetch. *)
Definition SELECT {A} (q : Table -> A) : M A := execute (fun w =>
  (Returned (q (rows w)), w)).

(** An [UPDATE]; outside a transaction the [sqlite3] module opens one first. *)
Definition UPDATE (f : Table -> Table) : M unit := execute (fun w =>
  let s := match saved w with Some s => s | None => rows w end in
  (Returned tt, mkConn (f (rows w)) (Some s) (pending w) (clock w))).

(** ** The queries and updates of [SDCardApp] *)

(** [SELECT id, status FROM sdcards WHERE id IN (?,...,?)].  SQLite accepts
    an empty list after [IN]; the condition is then false on every row. *)
Definition select_id_status (card_ids : list Z) (db : Table) : list (Z * string) :=
  map (fun c => (id c, status c))
      (filter (fun c => existsb (Z.eqb (id c)) card_ids) db).

(** [[str(id) for id, status in statuses if status != '在庫あり']]. *)
Definition unavailable_cards (statuses : list (Z * string)) : list string :=
  map (fun p => str (fst p))
      (filter (fun p => negb (snd p =? AVAILABLE)%string) statuses).

(** [SELECT status FROM sdcards WHERE id = ?] and [fetchone]. *)
Definition select_status (card_id : Z) (db : Table) : option string :=
  hd_error (map status (filter (fun c => id c =? card_id) db)).

(** The row a checkout [UPDATE] writes. *)
Definition checked_out (t : Timestamp) (u e s : option string) (c : Card) : Card :=
  mkCard (id c) (card_number c) (card_index c) CHECKED_OUT (capacity c)
         (Some t) u e (case_number c) s.

(** The row a return [UPDATE] writes. *)
Definition returned (c : Card) : Card :=
  mkCard (id c) (card_number c) (card_index c) AVAILABLE (capacity c)
         None None None (case_number c) None.

Definition update_where_id (card_id : Z) (f : Card -> Card) (db : Table) : Table :=
  map (fun c => if id c =? card_id then f c else c) db.

Section Methods.

(** [datetime.now()] at its n-th reading. *)
Variable now : nat -> Timestamp.

Definition datetime_now : M Timestamp := fun w =>
  (Returned (now (clock w)),
   mkConn (rows w) (saved w) (pending w) (S (clock w))).

Definition checkout_failure (unavailable : list string) : string :=
  "以下のカードは現在貸出できません: " ++ String.concat ", " unavailable.

Definition checkout_success : string := "貸出が完了しました".
Definition return_failure : string := "このカードは返却できません".
Definition return_success : string := "返却が完了しました".
Definition generic_failure (e : Exn) : string := "エラーが発生しました: " ++ e.

(** The [except] clause shared by the two methods. *)
Definition rollback_and_report (e : Exn) : M (bool * string) :=
  ROLLBACK ;; ret (false, generic_failure e).

(** The [try] block of [checkout_cards]. *)
Definition checkout_body (card_ids : list Z)
  (user_name equipment shoot_content : option string) : M (bool * string) :=
  BEGIN ;;
  statuses <- SELECT (select_id_status card_ids) ;;
  let unavailable := unavailable_cards statuses in
  match unavailable with
  | _ :: _ =>
      ROLLBACK ;;
      ret (false, checkout_failure unavailable)
  | [] =>
      for_each card_ids (fun card_id =>
        t <- datetime_now ;;
        UPDATE (update_where_id card_id
                  (checked_out t user_name equipment shoot_content))) ;;
      COMMIT ;;
      ret (true, checkout_success)
  end.

Definition checkout_cards (card_ids : list Z)
  (user_name equipment shoot_content : option string) : M (bool * string) :=
  try_except (checkout_body card_ids user_name equipment shoot_content)
             rollback_and_report.

(** The [try] block of [return_card]. *)
Definition return_body (card_id : Z) : M (bool * string) :=
  BEGIN ;;
  status <- SELECT (select_status card_id) ;;
  match status with
  | None => ROLLBACK ;; ret (false, return_failure)
  | Some st =>
      if negb (st =? CHECKED_OUT)%string
      then ROLLBACK ;; ret (false, return_failure)
      else
        UPDATE (update_where_id card_id returned) ;;
        COMMIT ;;
        ret (true, return_success)
  end.

Definition return_card (card_id : Z) : M (bool * string) :=
  try_except (return_body card_id) rollback_and_report.

End Methods.

(** ** The listings *)

(** [ORDER BY card_index]: a stable insertion sort on the index column; rows
    of equal index stay in rowid order. *)
Fixpoint insert_by_index (c : Card) (l : list Card) : list Card :=
  match l with
  | [] => [c]
  | d :: rest =>
      if card_index c <=? card_index d then c :: l
      else d :: insert_by_index c rest
  end.

Definition order_by_card_index (l : list Card) : list Card :=
  fold_right insert_by_index [] l.

(** The columns of the three result sets. *)
Record AvailableRow := mkAvailableRow {
  av_id : Z;
  av_card_number : string;
  av_capacity : string
}.

Record CheckedOutRow := mkCheckedOutRow {
  co_id : Z;
  co_card_number : string;
  co_capacity : string;
  co_user_name : option string;
  co_equipment : option string;
  co_shoot_content : option string;
  co_checkout_date : option Timestamp
}.

Record CaseRow := mkCaseRow {
  cs_card_number : string;
  cs_status : string;
  cs_capacity : string;
  cs_checkout_date : option Timestamp;
  cs_user_name : option string;
  cs_equipment : option string;
  cs_case_number : string;
  cs_shoot_content : option string
}.

Definition in_case_with_status (case st : string) (c : Card) : bool :=
  (case_number c =? case)%string && (status c =? st)%string.

Definition get_available_cards_by_case (case : string) (db : Table)
  : list AvailableRow :=
  map (fun c => mkAvailableRow (id c) (card_number c) (capacity c))
      (order_by_card_index (filter (in_case_with_status case AVAILABLE) db)).

Definition get_checked_out_cards_by_case (case : string) (db : Table)
  : list CheckedOutRow :=
  map (fun c => mkCheckedOutRow (id c) (card_number c) (capacity c)
                  (user_name c) (equipment c) (shoot_content c)
                  (checkout_date c))
      (order_by_card_index (filter (in_case_with_status case CHECKED_OUT) db)).

Definition get_cards_by_case (case : string) (db : Table) : list CaseRow :=
  map (fun c => mkCaseRow (card_number c) (status c) (capacity c)
                  (checkout_date c) (user_name c) (equipment c)
                  (case_number c) (shoot_content c))
      (order_by_card_index (filter (fun c => (case_number c =? case)%string) db)).

(** ** Calls *)

(** A connection with no transaction open. *)
Definition connect (db : Table) (faults : list (option Fault)) (k : nat) : Conn :=
  mkConn db None faults k.

(** No transaction open and no fault ahead. *)
Definition quiet (w : Conn) : Prop := saved w = None /\ pending w = [].

(** The table after the [UPDATE] loop of [checkout_cards] ran to its end,
    the first clock reading being the [k]-th. *)
Fixpoint stamp_all (now : nat -> Timestamp) (u e s : option string)
  (card_ids : list Z) (db : Table) (k : nat) : Table :=
  match card_ids with
  | [] => db
  | card_id :: rest =>
      stamp_all now u e s rest
        (update_where_id card_id (checked_out (now k) u e s) db) (S k)
  end.

(** The same loop seen from one row. *)
Fixpoint stamp_card (now : nat -> Timestamp) (u e s : option string)
  (card_ids : list Z) (k : nat) (c : Card) : Card :=
  match card_ids with
  | [] => c
  | card_id :: rest =>
      stamp_card now u e s rest (S k)
        (if id c =? card_id then checked_out (now k) u e s c else c)
  end.

(** The columns no method writes. *)
Definition key_columns (c : Card) : Z * string * Z * string * string :=
  (id c, card_number c, card_index c, capacity c, case_number c).

(** The four checkout-scoped columns. *)
Definition all_non_null (c : Card) : Prop :=
  checkout_date c <> None /\ user_name c <> None /\
  equipment c <> None /\ shoot_content c <> None.

Definition all_null (c : Card) : Prop :=
  checkout_date c = None /\ user_name c = None /\
  equipment c = None /\ shoot_content c = None.

(** Connections reached from a freshly seeded table by calls of the two
    methods, whatever faults the engine raises and whatever each call
    returns or raises; [ok] restricts the three text arguments of
    [checkout_cards]. *)
Inductive reachable (ok : option string -> Prop) : Conn -> Prop :=
| reach_seed : forall db faults k,
    insert_initial_data [] = Some db ->
    reachable ok (connect db faults k)
| reach_faults : forall w faults,
    reachable ok w ->
    reachable ok (mkConn (rows w) (saved w) faults (clock w))
| reach_checkout : forall now card_ids u e s w r w',
    reachable ok w -> ok u -> ok e -> ok s ->
    checkout_cards now card_ids u e s w = (r, w') ->
    reachable ok w'
| reach_return : forall card_id w r w',
    reachable ok w ->
    return_card card_id w = (r, w') ->
    reachable ok w'.

(** What the columns of one row look like in either status. *)
Definition row_ok (c : Card) : Prop :=
  (status c = CHECKED_OUT /\ all_non_null c) \/
  (status c = AVAILABLE /\ all_null c).

Definition two_valued (c : Card) : Prop :=
  status c = AVAILABLE \/ status c = CHECKED_OUT.

(** The rows are the seeded ones up to status and checkout columns. *)
Definition seeded_shape (db : Table) : Prop :=
  map key_columns db = map key_columns seeded /\ Forall two_valued db.

Definition is_null {A} (o : option A) : bool :=
  match o with None => true | Some _ => false end.

Definition fresh_row (c : Card) : bool :=
  (status c =? AVAILABLE)%string && is_null (checkout_date c) &&
  is_null (user_name c) && is_null (equipment c) && is_null (shoot_content c).

Fixpoint distinct (l : list string) : bool :=
  match l with
  | [] => true
  | x :: rest => negb (existsb (String.eqb x) rest) && distinct rest
  end.

(** The capacity rule in the words of the specification: container SD1 has
    32G for indices 1 to 11, 64G for 12 to 18 and 128G for 19 to 40,
    container SD2 has 64G throughout and container microSD 32G. *)
Definition spec_capacity (case : string) (index : Z) : option string :=
  if (case =? SD1)%string then
    if (1 <=? index) && (index <=? 11) then Some "32G"
    else if (12 <=? index) && (index <=? 18) then Some "64G"
    else if (19 <=? index) && (index <=? 40) then Some "128G"
    else None
  else if (case =? SD2)%string then Some "64G"
  else if (case =? microSD)%string then Some "32G"
  else None.

Definition seed_row (c : Card) : bool :=
  (status c =? AVAILABLE)%string &&
  match spec_capacity (case_number c) (card_index c) with
  | Some cap => (capacity c =? cap)%string
  | None => false
  end.

Definition indices_of (case : string) (db : Table) : list Z :=
  map card_index (filter (fun c => (case_number c =? case)%string) db).

(** A clock for the examples. *)
Definition sample_clock (n : nat) : Timestamp :=
  ("2024-05-01 10:00:0" ++ str (Z.of_nat n))%string.

(** Sample runs: card 1 lent to Alice on a fresh connection; the same card
    returned; a connection whose second statement finds the database locked;
    one whose third statement finds the disk full; one whose second statement
    hits an I/O error. *)
Definition sample_lent : Conn :=
  snd (checkout_cards sample_clock [1] (Some "Alice") (Some "CamA")
         (Some "Interview") (connect seeded [] 0)).

Definition sample_card : Card :=
  mkCard 1 "SD1-1" 1 CHECKED_OUT "32G" (Some (sample_clock 0))
         (Some "Alice") (Some "CamA") SD1 (Some "Interview").

Definition sample_back : Conn := snd (return_card 1 sample_lent).

Definition sample_locked : Conn :=
  connect seeded [None; Some (mkFault "database is locked" false)] 0.

Definition sample_full : Conn :=
  connect seeded [None; None; Some (mkFault "database or disk is full" true)] 0.

Definition sample_io : Conn :=
  connect seeded [None; Some (mkFault "disk I/O error" true)] 0.

(** ** The container menu: [get_case_numbers] *)

(** [SELECT DISTINCT case_number FROM sdcards] and [tolist()]: each value
    once, at its first row in scan order. *)
Fixpoint first_occurrences (seen l : list string) : list string :=
  match l with
  | [] => []
  | x :: rest =>
      if existsb (String.eqb x) seen then first_occurrences seen rest
      else x :: first_occurrences (x :: seen) rest
  end.

Definition get_case_numbers (db : Table) : list string :=
  first_occurrences [] (map case_number db).

(** An AVAILABLE row has nothing in its checkout-scoped columns. *)
Definition idle_row (c : Card) : Prop :=
  status c = AVAILABLE -> all_null c.

(** A CHECKED_OUT row has its timestamp. *)
Definition dated_row (c : Card) : Prop :=
  status c = CHECKED_OUT -> checkout_date c <> None.

(** Cards 5 and 7 lent in one batch, and card 7 as it is afterwards. *)
Definition sample_pair : Conn :=
  snd (checkout_cards sample_clock [5; 7] (Some "Bob") (Some "CamB")
         (Some "Match") (connect seeded [] 0)).

Definition sample_seventh : Card :=
  mkCard 7 "SD1-7" 7 CHECKED_OUT "32G" (Some (sample_clock 1))
         (Some "Bob") (Some "CamB") SD1 (Some "Match").

(** ** The screens: [main]

    One run of the script.  What the widgets return in that run is given
    ([Widgets]); the session state, the table, the messages shown and the
    calls made on the store are threaded through.  [st.rerun()] and an
    uncaught exception end the run.  Titles, captions, separators and the
    layout of the widgets are left out, and so are store faults: each call
    of a method runs on a connection that raises none.  [init_db] creates
    the table if it is not there and has no effect on its rows. *)

Record CheckoutInfo := mkCheckoutInfo {
  info_user_name : string;
  info_equipment : string;
  info_shoot_content : string;
  info_case_number : string
}.

(** [st.session_state]: each key is there or not. *)
Record Session := mkSession {
  mode : option string;
  checkout_info : option CheckoutInfo;
  selected_cards : option (list Z)
}.

Record Widgets := mkWidgets {
  button_checkout : bool;          (* 貸出 *)
  button_return : bool;            (* 返却 *)
  button_stats : bool;             (* 在庫一覧 *)
  text_user_name : string;         (* 使用者名 *)
  text_equipment : string;         (* 使用機材 *)
  select_case : option string;     (* カードケース番号, of the screen shown *)
  text_shoot_content : string;     (* 取材内容 *)
  button_submit : bool;            (* カードを選択 *)
  checkbox : Z -> bool;            (* card_checkbox_{id} *)
  button_confirm : bool;           (* 貸出を確定する *)
  button_return_card : Z -> bool;  (* return_{id} *)
  button_back : bool               (* 戻る *)
}.

(** The columns of the stock list as displayed. *)
Record DisplayRow := mkDisplayRow {
  d_card_number : string;
  d_status : string;
  d_capacity : string;
  d_date : string;
  d_user : string;
  d_equipment : string;
  d_case_number : string;
  d_content : string
}.

Inductive Shown : Type :=
| st_error (msg : string)
| st_success (msg : string)
| st_info (msg : string)
| st_markdown (msg : string)
| st_dataframe (table : list DisplayRow).

Inductive Call : Type :=
| CallCheckout (card_ids : list Z) (user_name equipment shoot_content : string)
| CallReturn (card_id : Z).

Record Screen := mkScreen {
  session : Session;
  table : Table;
  ticks : nat;
  shown : list Shown;
  calls : list Call
}.

Inductive Step (A : Type) : Type :=
| Go (a : A)
| Rerun
| Crash (e : Exn).
Arguments Go {A} a.
Arguments Rerun {A}.
Arguments Crash {A} e.

Definition Script (A : Type) : Type := Screen -> Step A * Screen.

Definition done {A} (a : A) : Script A := fun st => (Go a, st).

Definition and_then {A B} (m : Script A) (k : A -> Script B) : Script B :=
  fun st =>
    match m st with
    | (Go a, st') => k a st'
    | (Rerun, st') => (Rerun, st')
    | (Crash e, st') => (Crash e, st')
    end.

Declare Scope script_scope.
Delimit Scope script_scope with script.
Bind Scope script_scope with Script.
Notation "x <- m ;; k" := (and_then m (fun x => k))
  (at level 61, m at next level, right associativity) : script_scope.
Notation "m ;; k" := (and_then m (fun _ => k))
  (at level 61, right associativity) : script_scope.

(** [if b: ...] with nothing otherwise. *)
Definition when (b : bool) (m : Script unit) : Script unit :=
  if b then m else done tt.

Definition st_rerun : Script unit := fun st => (Rerun, st).

Definition raise {A} (e : Exn) : Script A := fun st => (Crash e, st).

Definition show (x : Shown) : Script unit := fun st =>
  (Go tt, mkScreen (session st) (table st) (ticks st) (shown st ++ [x]) (calls st)).

Definition get_session : Script Session := fun st => (Go (session st), st).

Definition put_session (s : Session) : Script unit := fun st =>
  (Go tt, mkScreen s (table st) (ticks st) (shown st) (calls st)).

Definition read_table : Script Table := fun st => (Go (table st), st).

Definition no_attribute (key : string) : Exn :=
  ("st.session_state has no attribute " ++ key)%string.

(** Reading, writing and deleting the three keys.  Reading or deleting a key
    that is not there raises. *)
Definition read_mode : Script string :=
  (s <- get_session ;;
   match mode s with
   | Some m => done m
   | None => raise (no_attribute "mode")
   end)%script.

Definition set_mode (m : string) : Script unit :=
  (s <- get_session ;;
   put_session (mkSession (Some m) (checkout_info s) (selected_cards s)))%script.

Definition read_info : Script CheckoutInfo :=
  (s <- get_session ;;
   match checkout_info s with
   | Some i => done i
   | None => raise (no_attribute "checkout_info")
   end)%script.

Definition set_info (i : CheckoutInfo) : Script unit :=
  (s <- get_session ;;
   put_session (mkSession (mode s) (Some i) (selected_cards s)))%script.

Definition del_info : Script unit :=
  (s <- get_session ;;
   match checkout_info s with
   | Some _ => put_session (mkSession (mode s) None (selected_cards s))
   | None => raise (no_attribute "checkout_info")
   end)%script.

Definition read_selected : Script (list Z) :=
  (s <- get_session ;;
   match selected_cards s with
   | Some l => done l
   | None => raise (no_attribute "selected_cards")
   end)%script.

Definition set_selected (l : list Z) : Script unit :=
  (s <- get_session ;;
   put_session (mkSession (mode s) (checkout_info s) (Some l)))%script.

Definition del_selected : Script unit :=
  (s <- get_session ;;
   match selected_cards s with
   | Some _ => put_session (mkSession (mode s) (checkout_info s) None)
   | None => raise (no_attribute "selected_cards")
   end)%script.

(** [if "checkout_info" in st.session_state: del ...], and the same for
    [selected_cards]. *)
Definition drop_selection : Script unit :=
  (s <- get_session ;;
   when (negb (is_null (checkout_info s))) del_info ;;
   s <- get_session ;;
   when (negb (is_null (selected_cards s))) del_selected)%script.

(** A string as a condition. *)
Definition truthy (x : string) : bool := negb (x =? "")%string.

(** [x.split(' ')[0]]. *)
Fixpoint before_space (x : string) : string :=
  match x with
  | EmptyString => EmptyString
  | String a rest =>
      if (a =? " ")%char then EmptyString else String a (before_space rest)
  end.

(** [insert_initial_data()] at the top of every run. *)
Definition seed : Script unit := fun st =>
  match insert_initial_data (table st) with
  | Some db =>
      (Go tt, mkScreen (session st) db (ticks st) (shown st) (calls st))
  | None => (Crash "UNIQUE constraint failed: sdcards.card_number", st)
  end.

Section Screens.

Variable now : nat -> Timestamp.
Variable ui : Widgets.

(** [app.checkout_cards(...)] and [app.return_card(...)] from the screens:
    the arguments are Python strings, never [None]. *)
Definition call_checkout (card_ids : list Z) (i : CheckoutInfo)
  : Script (bool * string) := fun st =>
  match checkout_cards now card_ids (Some (info_user_name i))
          (Some (info_equipment i)) (Some (info_shoot_content i))
          (connect (table st) [] (ticks st)) with
  | (Returned r, w) =>
      (Go r, mkScreen (session st) (rows w) (clock w) (shown st)
               (calls st ++ [CallCheckout card_ids (info_user_name i)
                               (info_equipment i) (info_shoot_content i)]))
  | (Raised e, _) => (Crash e, st)
  end.

Definition call_return (card_id : Z) : Script (bool * string) := fun st =>
  match return_card card_id (connect (table st) [] (ticks st)) with
  | (Returned r, w) =>
      (Go r, mkScreen (session st) (rows w) (clock w) (shown st)
               (calls st ++ [CallReturn card_id]))
  | (Raised e, _) => (Crash e, st)
  end.

(** The three buttons of the first screen. *)
Definition select_screen : Script unit :=
  (when (button_checkout ui)
     (set_mode "checkout" ;; drop_selection ;; st_rerun) ;;
   when (button_return ui) (set_mode "return" ;; st_rerun) ;;
   when (button_stats ui) (set_mode "stats" ;; st_rerun))%script.

(** The form of the checkout screen, when submitted. *)
Definition checkout_form : Script unit :=
  if negb (truthy (text_user_name ui)) then
    show (st_error "使用者名を入力してください")
  else if negb (truthy (text_equipment ui)) then
    show (st_error "使用機材を入力してください")
  else
    match select_case ui with
    | Some case =>
        if truthy case then
          set_info (mkCheckoutInfo (text_user_name ui) (text_equipment ui)
                      (text_shoot_content ui) case)
        else show (st_error "カードケース番号を選択してください")
    | None => show (st_error "カードケース番号を選択してください")
    end.

Definition mem (i : Z) (l : list Z) : bool := existsb (Z.eqb i) l.

(** [list.remove]: the first occurrence goes. *)
Fixpoint remove_first (i : Z) (l : list Z) : list Z :=
  match l with
  | [] => []
  | j :: rest => if j =? i then rest else j :: remove_first i rest
  end.

(** The loop over the check boxes. *)
Fixpoint sync_selection (listing : list AvailableRow) (selected : list Z)
  : list Z :=
  match listing with
  | [] => selected
  | row :: rest =>
      let card_id := av_id row in
      sync_selection rest
        (if checkbox ui card_id && negb (mem card_id selected)
         then selected ++ [card_id]
         else if negb (checkbox ui card_id) && mem card_id selected
         then remove_first card_id selected
         else selected)
  end.

(** [available_cards[available_cards['id'].isin(selected)]['card_number']]. *)
Definition selected_card_numbers (listing : list AvailableRow)
  (selected : list Z) : list string :=
  map av_card_number (filter (fun r => mem (av_id r) selected) listing).

Definition confirm (selected : list Z) : Script unit :=
  (i <- read_info ;;
   r <- call_checkout selected i ;;
   if fst r then
     show (st_success (snd r)) ;;
     del_info ;;
     del_selected ;;
     set_mode "select" ;;
     st_rerun
   else show (st_error (snd r)))%script.

Definition choose_cards : Script unit :=
  (i <- read_info ;;
   db <- read_table ;;
   let available_cards := get_available_cards_by_case (info_case_number i) db in
   match available_cards with
   | _ :: _ =>
       s <- get_session ;;
       when (is_null (selected_cards s)) (set_selected []) ;;
       selected <- read_selected ;;
       set_selected (sync_selection available_cards selected) ;;
       selected <- read_selected ;;
       match selected with
       | _ :: _ =>
           show (st_markdown
                   ("### 選択したカード: " ++
                    String.concat ", "
                      (selected_card_numbers available_cards selected))) ;;
           when (button_confirm ui) (confirm selected)
       | [] => show (st_info "カードを選択してください")
       end
   | [] => show (st_info "利用可能なカードがありません")
   end)%script.

Definition back : Script unit :=
  when (button_back ui) (set_mode "select" ;; st_rerun)%script.

Definition checkout_screen : Script unit :=
  (when (button_submit ui) checkout_form ;;
   s <- get_session ;;
   when (negb (is_null (checkout_info s))) choose_cards ;;
   when (button_back ui)
     (set_mode "select" ;; drop_selection ;; st_rerun))%script.

(** One expander of the return screen: the date is cut out of the
    timestamp, which must be a string, then comes the button. *)
Definition return_entry (card : CheckedOutRow) : Script unit :=
  match co_checkout_date card with
  | None => raise "'NoneType' object has no attribute 'split'"
  | Some _ =>
      when (button_return_card ui (co_id card))
        (r <- call_return (co_id card) ;;
         if fst r then show (st_success (snd r)) ;; st_rerun
         else show (st_error (snd r)))%script
  end.

Fixpoint return_entries (cards : list CheckedOutRow) : Script unit :=
  match cards with
  | [] => done tt
  | card :: rest => (return_entry card ;; return_entries rest)%script
  end.

(** [if case_number:] on what the select box returns. *)
Definition chosen_case : option string :=
  match select_case ui with
  | Some case => if truthy case then Some case else None
  | None => None
  end.

Definition return_screen : Script unit :=
  (match chosen_case with
   | Some case =>
       db <- read_table ;;
       match get_checked_out_cards_by_case case db with
       | card :: rest => return_entries (card :: rest)
       | [] => show (st_info "返却可能なカードはありません")
       end
   | None => done tt
   end ;;
   back)%script.

(** A row of the stock list with its derived columns.  A NULL is taken
    here as [None], the way [read_sql_query] hands it over in an object
    column; [fillna] blanks it, and the [lambda] of the date column sees it
    as falsy. *)
Definition blank_if_null (o : option string) : string :=
  match o with Some x => x | None => "" end.

Definition display_row (r : CaseRow) : DisplayRow :=
  mkDisplayRow (cs_card_number r) (cs_status r) (cs_capacity r)
    (match cs_checkout_date r with
     | Some x => if truthy x then before_space x else ""
     | None => ""
     end)
    (blank_if_null (cs_user_name r)) (blank_if_null (cs_equipment r))
    (cs_case_number r) (blank_if_null (cs_shoot_content r)).

Definition stats_screen : Script unit :=
  (match chosen_case with
   | Some case =>
       db <- read_table ;;
       show (st_dataframe (map display_row (get_cards_by_case case db)))
   | None => show (st_info "カードケース番号を選択してください")
   end ;;
   back)%script.

Definition main : Script unit :=
  (seed ;;
   s <- get_session ;;
   when (is_null (mode s)) (set_mode "select") ;;
   m <- read_mode ;;
   if (m =? "select")%string then select_screen
   else if (m =? "checkout")%string then checkout_screen
   else if (m =? "return")%string then return_screen
   else if (m =? "stats")%string then stats_screen
   else done tt)%script.

End Screens.

(** ** What the screens keep *)

Definition modes : list string := ["select"; "checkout"; "return"; "stats"].

(** The session state between runs: the mode is one of the four, a stored
    form has a borrower, an equipment and a container, a selection has no
    repeated id. *)
Definition session_sound (s : Session) : Prop :=
  (forall m, mode s = Some m -> In m modes) /\
  (forall i, checkout_info s = Some i ->
     info_user_name i <> "" /\ info_equipment i <> "" /\
     info_case_number i <> "") /\
  (forall l, selected_cards s = Some l -> NoDup l).

(** Form and selection exist on the checkout screen only, and a selection
    only beside a form. *)
Definition session_tidy (s : Session) : Prop :=
  (mode s <> Some "checkout" ->
   checkout_info s = None /\ selected_cards s = None) /\
  (selected_cards s <> None -> checkout_info s <> None).

(** A CHECKED_OUT row names a borrower and an equipment. *)
Definition lent_to_someone (c : Card) : Prop :=
  status c = CHECKED_OUT ->
  exists u e, user_name c = Some u /\ u <> "" /\
              equipment c = Some e /\ e <> "".

Definition table_ok (db : Table) : Prop :=
  Forall row_ok db /\ Forall lent_to_someone db /\
  (db = [] \/ map key_columns db = map key_columns seeded).

Definition call_ok (c : Call) : Prop :=
  match c with
  | CallCheckout card_ids u e s =>
      card_ids <> [] /\ NoDup card_ids /\ u <> "" /\ e <> ""
  | CallReturn _ => True
  end.

Definition screen_sound (st : Screen) : Prop :=
  session_sound (session st) /\ table_ok (table st) /\
  Forall call_ok (calls st).

Definition screen_ok (st : Screen) : Prop :=
  screen_sound st /\ session_tidy (session st).

(** [triple P m Q R]: from a screen in [P], [m] goes on in [Q] or asks for
    a rerun in [R]; it does not raise. *)
Definition triple {A} (P : Screen -> Prop) (m : Script A)
  (Q : A -> Screen -> Prop) (R : Screen -> Prop) : Prop :=
  forall st, P st ->
    match m st with
    | (Go a, st') => Q a st'
    | (Rerun, st') => R st'
    | (Crash _, _) => False
    end.

(** The states of the application: a new database file and a new browser
    session, then runs of the script with whatever the widgets return,
    and new browser sessions on the database as it is. *)
Inductive app_reachable : Session -> Table -> Prop :=
| app_fresh : app_reachable (mkSession None None None) []
| app_visit : forall s db,
    app_reachable s db -> app_reachable (mkSession None None None) db
| app_run : forall now ui s db k r st',
    app_reachable s db ->
    main now ui (mkScreen s db k [] []) = (r, st') ->
    app_reachable (session st') (table st').

(** The rest of the screen with the session known. *)
Definition at_session (S : Session) (st : Screen) : Prop :=
  session st = S /\ table_ok (table st) /\ Forall call_ok (calls st).

(** Sample runs of the script: on a new database the first screen with 貸出
    pressed; then the checkout screen with the form filled for Alice, the
    box of card 1 ticked and the confirmation pressed. *)
Definition sample_ui_open : Widgets :=
  mkWidgets true false false "" "" None "" false (fun _ => false) false
            (fun _ => false) false.

Definition sample_ui_lend : Widgets :=
  mkWidgets false false false "Alice" "CamA" (Some SD1) "Interview" true
            (fun i => i =? 1) true (fun _ => false) false.

Definition sample_screen_open : Screen :=
  snd (main sample_clock sample_ui_open
         (mkScreen (mkSession None None None) [] 0 [] [])).

Definition sample_screen_lent : Screen :=
  snd (main sample_clock sample_ui_lend
         (mkScreen (session sample_screen_open) (table sample_screen_open)
            0 [] [])).

Definition sample_listed : CheckedOutRow :=
  mkCheckedOutRow 1 "SD1-1" "32G" (Some "Alice") (Some "CamA")
    (Some "Interview") (Some (sample_clock 0)).

(** A selection kept from another container while card 2 is ticked. *)
Definition sample_boxes : Widgets :=
  mkWidgets false false false "" "" None "" false (fun i => i =? 2) false
            (fun _ => false) false.

Definition sample_listing : list AvailableRow :=
  [mkAvailableRow 1 "SD1-1" "32G"; mkAvailableRow 2 "SD1-2" "32G"].

(** Whether a string holds a space. *)
Fixpoint has_space (x : string) : bool :=
  match x with
  | EmptyString => false
  | String a rest => (a =? " ")%char || has_space rest
  end.

(** What a call made from the table [db0] has promised once it returns
    [(b, msg)]. *)
Definition settled (db0 : Table) (v : bool * string) (w : Conn) : Prop :=
  saved w = None /\ (fst v = false -> rows w = db0).

(** What [sqlite3] accepts as parameters: a Python [int] is bound only when
    it fits SQLite's 64-bit INTEGER (otherwise [execute] raises
    [OverflowError]), and a statement takes no more parameters than the
    engine's limit, which is 999 in the oldest builds in use.  The methods
    are modelled on such arguments. *)
Definition sqlite_integer (i : Z) : Prop := - 2 ^ 63 <= i < 2 ^ 63.

Definition bindable (card_ids : list Z) : Prop :=
  Forall sqlite_integer card_ids /\ (List.length card_ids <= 999)%nat.

(** ** A program logic for [M] *)

(** [hoare P m Q E]: from a connection in [P], [m] returns in [Q] or raises
    in [E]. *)
Definition hoare {A} (P : Conn -> Prop) (m : M A)
  (Q : A -> Conn -> Prop) (E : Exn -> Conn -> Prop) : Prop :=
  forall w, P w ->
    match m w with
    | (Returned a, w') => Q a w'
    | (Raised e, w') => E e w'
    end.

(** A property of the rows and of the snapshot only. *)
Definition stable (P : Conn -> Prop) : Prop :=
  forall w faults k, P w -> P (mkConn (rows w) (saved w) faults k).

(** [Inv] holds of the rows the connection reads and of the snapshot a
    rollback would restore. *)
Definition holds (Inv : Table -> Prop) (w : Conn) : Prop :=
  Inv (rows w) /\ forall s, saved w = Some s -> Inv s.

(** Rolling back, if it can be done at all, gives [db0]: the snapshot is
    [db0], or no transaction is open and the rows are [db0]. *)
Definition untouched (db0 : Table) (w : Conn) : Prop :=
  match saved w with
  | Some s => s = db0
  | None => rows w = db0
  end.

Lemma hoare_ret {A} (P : Conn -> Prop) (a : A) Q E :
  (forall w, P w -> Q a w) -> hoare P (ret a) Q E.
Proof. intros H w Hw. simpl. auto. Qed.

Lemma hoare_bind {A B} P (m : M A) (k : A -> M B) Q R E :
  hoare P m Q E -> (forall a, hoare (Q a) (k a) R E) ->
  hoare P (bind m k) R E.
Proof.
  intros Hm Hk w Hw. unfold bind. specialize (Hm w Hw).
  destruct (m w) as [[a|e] w1]; [apply (Hk a w1 Hm) | exact Hm].
Qed.

Lemma hoare_try {A} P (body : M A) handler Q E' E :
  hoare P body Q E' -> (forall e, hoare (E' e) (handler e) Q E) ->
  hoare P (try_except body handler) Q E.
Proof.
  intros Hb Hh w Hw. unfold try_except. specialize (Hb w Hw).
  destruct (body w) as [[a|e] w1]; [exact Hb | apply (Hh e w1 Hb)].
Qed.

Lemma hoare_weaken {A} (P P' : Conn -> Prop) (m : M A)
  (Q Q' : A -> Conn -> Prop) (E E' : Exn -> Conn -> Prop) :
  hoare P m Q E ->
  (forall w, P' w -> P w) ->
  (forall a w, Q a w -> Q' a w) ->
  (forall e w, E e w -> E' e w) ->
  hoare P' m Q' E'.
Proof.
  intros H HP HQ HE w Hw. specialize (H w (HP w Hw)).
  destruct (m w) as [[a|e] w1]; auto.
Qed.

(** A statement: a scheduled fault leaves the rows alone or drops the
    transaction, and raises. *)
Lemma hoare_execute {A} P (sem : Conn -> Result A * Conn) Q
  (E : Exn -> Conn -> Prop) :
  stable P ->
  (forall w, P w -> P (abandon w)) ->
  (forall e w, P w -> E e w) ->
  hoare P sem Q E ->
  hoare P (execute sem) Q E.
Proof.
  intros Hst Hab HE Hs w Hw. unfold execute.
  destruct (pending w) as [|[f|] fs].
  - apply Hs, Hw.
  - apply HE. destruct (ends_transaction f).
    + apply Hab, Hst, Hw.
    + apply Hst, Hw.
  - apply Hs, Hst, Hw.
Qed.

Lemma hoare_for_each {A} (I : Conn -> Prop) (l : list A) body E :
  (forall a, hoare I (body a) (fun _ => I) E) ->
  hoare I (for_each l body) (fun _ => I) E.
Proof.
  intros Hb. induction l as [|a l IH]; simpl.
  - apply hoare_ret; auto.
  - eapply hoare_bind; [apply Hb | intros u; exact IH].
Qed.

Lemma hoare_datetime_now now (P : Conn -> Prop) E :
  stable P -> hoare P (datetime_now now) (fun _ => P) E.
Proof. intros Hst w Hw. simpl. apply Hst, Hw. Qed.

(** ** Statements keep what a transaction promises *)

Ltac open_conn :=
  repeat match goal with
  | w : Conn |- _ => destruct w as [? [?|] ? ?]
  end;
  unfold holds, untouched, abandon in *; simpl in *.

Ltac conn_facts :=
  repeat match goal with
  | H : _ /\ _ |- _ => destruct H
  | H : Some _ = Some _ |- _ => injection H as H; subst
  | H : Some _ = None |- _ => discriminate H
  | H : None = Some _ |- _ => discriminate H
  | |- _ /\ _ => split
  | |- forall _, _ => intro
  end; subst; auto.

Section Invariance.

Variable Inv : Table -> Prop.

Lemma holds_stable : stable (holds Inv).
Proof. intros w faults k Hw. exact Hw. Qed.

Lemma holds_abandon w : holds Inv w -> holds Inv (abandon w).
Proof. intros Hw. open_conn; conn_facts. Qed.

Lemma holds_execute {A} (sem : Conn -> Result A * Conn) :
  hoare (holds Inv) sem (fun _ => holds Inv) (fun _ => holds Inv) ->
  hoare (holds Inv) (execute sem) (fun _ => holds Inv) (fun _ => holds Inv).
Proof.
  intros H. apply hoare_execute; auto using holds_stable, holds_abandon.
Qed.

Lemma holds_BEGIN :
  hoare (holds Inv) BEGIN (fun _ => holds Inv) (fun _ => holds Inv).
Proof. apply holds_execute. intros w Hw. open_conn; conn_facts. Qed.

Lemma holds_ROLLBACK :
  hoare (holds Inv) ROLLBACK (fun _ => holds Inv) (fun _ => holds Inv).
Proof. apply holds_execute. intros w Hw. open_conn; conn_facts. Qed.

Lemma holds_COMMIT :
  hoare (holds Inv) COMMIT (fun _ => holds Inv) (fun _ => holds Inv).
Proof. apply holds_execute. intros w Hw. open_conn; conn_facts. Qed.

Lemma holds_SELECT {A} (q : Table -> A) :
  hoare (holds Inv) (SELECT q) (fun _ => holds Inv) (fun _ => holds Inv).
Proof. apply holds_execute. intros w Hw. exact Hw. Qed.

Lemma holds_UPDATE (f : Table -> Table) :
  (forall db, Inv db -> Inv (f db)) ->
  hoare (holds Inv) (UPDATE f) (fun _ => holds Inv) (fun _ => holds Inv).
Proof.
  intros Hf. apply holds_execute. intros w Hw. open_conn; conn_facts.
Qed.

Lemma holds_rollback_and_report e :
  hoare (holds Inv) (rollback_and_report e)
        (fun _ => holds Inv) (fun _ => holds Inv).
Proof.
  unfold rollback_and_report.
  eapply hoare_bind; [apply holds_ROLLBACK | intros u; apply hoare_ret; auto].
Qed.

Lemma holds_checkout_cards now card_ids u e s :
  (forall t card_id db,
     Inv db -> Inv (update_where_id card_id (checked_out t u e s) db)) ->
  hoare (holds Inv) (checkout_cards now card_ids u e s)
        (fun _ => holds Inv) (fun _ => holds Inv).
Proof.
  intros Hup. unfold checkout_cards.
  eapply hoare_try; [|apply holds_rollback_and_report].
  unfold checkout_body.
  eapply hoare_bind; [apply holds_BEGIN | intros _u].
  eapply hoare_bind; [apply holds_SELECT | intros statuses].
  cbv zeta. destruct (unavailable_cards statuses).
  - eapply hoare_bind.
    + apply hoare_for_each. intros card_id.
      eapply hoare_bind;
        [apply hoare_datetime_now, holds_stable | intros t].
      apply holds_UPDATE. intros db. apply Hup.
    + intros _v. eapply hoare_bind; [apply holds_COMMIT | intros _w].
      apply hoare_ret; auto.
  - eapply hoare_bind; [apply holds_ROLLBACK | intros _v].
    apply hoare_ret; auto.
Qed.

Lemma holds_return_card card_id :
  (forall db, Inv db -> Inv (update_where_id card_id returned db)) ->
  hoare (holds Inv) (return_card card_id)
        (fun _ => holds Inv) (fun _ => holds Inv).
Proof.
  intros Hup. unfold return_card.
  eapply hoare_try; [|apply holds_rollback_and_report].
  unfold return_body.
  eapply hoare_bind; [apply holds_BEGIN | intros _u].
  eapply hoare_bind; [apply holds_SELECT | intros [st|]].
  - destruct (negb (st =? CHECKED_OUT)%string).
    + eapply hoare_bind; [apply holds_ROLLBACK | intros _v].
      apply hoare_ret; auto.
    + eapply hoare_bind; [apply holds_UPDATE, Hup | intros _v].
      eapply hoare_bind; [apply holds_COMMIT | intros _w].
      apply hoare_ret; auto.
  - eapply hoare_bind; [apply holds_ROLLBACK | intros _v].
    apply hoare_ret; auto.
Qed.

(** Every reachable connection satisfies an invariant of the seed that the
    two [UPDATE]s keep. *)
Lemma reachable_holds (ok : option string -> Prop) :
  (forall db, insert_initial_data [] = Some db -> Inv db) ->
  (forall t u e s card_id db, ok u -> ok e -> ok s ->
     Inv db -> Inv (update_where_id card_id (checked_out t u e s) db)) ->
  (forall card_id db, Inv db -> Inv (update_where_id card_id returned db)) ->
  forall w, reachable ok w -> holds Inv w.
Proof.
  intros Hseed Hout Hback w Hw. induction Hw as
    [db faults k Hdb | w faults Hw IH
    | now card_ids u e s w r w' Hw IH Hu He Hs Hcall
    | card_id w r w' Hw IH Hcall].
  - split; simpl; [auto | discriminate].
  - exact IH.
  - pose proof (holds_checkout_cards now card_ids u e s
                  (fun t i db => Hout t u e s i db Hu He Hs) w IH) as H.
    rewrite Hcall in H. destruct r; exact H.
  - pose proof (holds_return_card card_id (Hback card_id) w IH) as H.
    rewrite Hcall in H. destruct r; exact H.
Qed.

End Invariance.

(** ** The seeded table *)

Lemma seeded_is_seed : insert_initial_data [] = Some seeded.
Proof. vm_compute. reflexivity. Qed.

Lemma seed_unique db : insert_initial_data [] = Some db -> db = seeded.
Proof. rewrite seeded_is_seed. congruence. Qed.

Lemma status_literals_differ : AVAILABLE <> CHECKED_OUT.
Proof. unfold AVAILABLE, CHECKED_OUT. discriminate. Qed.

Lemma fresh_row_spec c :
  fresh_row c = true -> status c = AVAILABLE /\ all_null c.
Proof.
  unfold fresh_row, all_null. intros H.
  repeat (apply andb_true_iff in H; destruct H as [H ?]).
  apply String.eqb_eq in H.
  destruct (checkout_date c), (user_name c), (equipment c), (shoot_content c);
    try discriminate; auto.
Qed.

Lemma seeded_fresh : Forall (fun c => status c = AVAILABLE /\ all_null c) seeded.
Proof.
  apply Forall_forall. intros c Hc. apply fresh_row_spec.
  assert (H : forallb fresh_row seeded = true) by (vm_compute; reflexivity).
  rewrite forallb_forall in H. exact (H c Hc).
Qed.

Lemma distinct_NoDup l : distinct l = true -> NoDup l.
Proof.
  induction l as [|x l IH]; simpl; intros H; constructor.
  - apply andb_true_iff in H. destruct H as [H _].
    apply negb_true_iff in H. intros Hin.
    assert (existsb (String.eqb x) l = true); [|congruence].
    apply existsb_exists. exists x. split; [exact Hin | apply String.eqb_refl].
  - apply andb_true_iff in H. apply IH, H.
Qed.

Lemma seeded_labels_distinct : NoDup (map card_number seeded).
Proof. apply distinct_NoDup. vm_compute. reflexivity. Qed.

(** ** What the two [UPDATE]s write *)

Lemma key_columns_checked_out t u e s c :
  key_columns (checked_out t u e s c) = key_columns c.
Proof. reflexivity. Qed.

Lemma key_columns_returned c : key_columns (returned c) = key_columns c.
Proof. reflexivity. Qed.

Lemma update_where_id_keys card_id f db :
  (forall c, key_columns (f c) = key_columns c) ->
  map key_columns (update_where_id card_id f db) = map key_columns db.
Proof.
  intros Hf. unfold update_where_id. rewrite map_map. apply map_ext.
  intros c. destruct (id c =? card_id); auto.
Qed.

Lemma update_where_id_Forall (P : Card -> Prop) card_id f db :
  (forall c, P (f c)) -> Forall P db -> Forall P (update_where_id card_id f db).
Proof.
  intros Hf H. unfold update_where_id. apply Forall_map.
  eapply Forall_impl; [|exact H]. simpl. intros c Hc.
  destruct (id c =? card_id); auto.
Qed.

Lemma row_ok_checked_out t u e s c :
  u <> None -> e <> None -> s <> None -> row_ok (checked_out t u e s c).
Proof.
  intros Hu He Hs. left. unfold all_non_null. simpl.
  repeat split; auto; discriminate.
Qed.

Lemma row_ok_returned c : row_ok (returned c).
Proof. right. unfold all_null. simpl. auto. Qed.

Lemma reachable_rows_ok w :
  reachable (fun a => a <> None) w -> Forall row_ok (rows w).
Proof.
  intros Hw.
  apply (reachable_holds (Forall row_ok) (fun a => a <> None)); auto.
  - intros db Hdb. rewrite (seed_unique db Hdb).
    eapply Forall_impl; [|apply seeded_fresh]. intros c Hc. right. exact Hc.
  - intros t u e s card_id db Hu He Hs. apply update_where_id_Forall.
    intros c. apply row_ok_checked_out; auto.
  - intros card_id db. apply update_where_id_Forall, row_ok_returned.
Qed.

Lemma reachable_shape ok w : reachable ok w -> seeded_shape (rows w).
Proof.
  intros Hw. apply (reachable_holds seeded_shape ok); auto.
  - intros db Hdb. rewrite (seed_unique db Hdb). split; [reflexivity|].
    eapply Forall_impl; [|apply seeded_fresh]. intros c [Hc _]. left. exact Hc.
  - intros t u e s card_id db _ _ _ [Hk Hs]. split.
    + rewrite update_where_id_keys; auto.
    + apply update_where_id_Forall; auto. intros c. right. reflexivity.
  - intros card_id db [Hk Hs]. split.
    + rewrite update_where_id_keys; auto.
    + apply update_where_id_Forall; auto. intros c. left. reflexivity.
Qed.

(** C7. In every connection reached from the seeded table by calls of
    [checkout_cards] with non-null borrower, equipment and note and by calls
    of [return_card], a row has its four checkout-scoped columns all
    non-null exactly when its status is CHECKED_OUT. *)
Theorem checkout_fields_iff_checked_out :
  forall w, reachable (fun a => a <> None) w ->
  forall c, In c (rows w) ->
    all_non_null c <-> status c = CHECKED_OUT.
Proof.
  intros w Hw c Hc.
  pose proof (reachable_rows_ok w Hw) as H.
  rewrite Forall_forall in H. specialize (H c Hc).
  destruct H as [[Hst Hnn] | [Hst Hn]].
  - tauto.
  - split.
    + intros [Hd _]. destruct Hn as [Hn _]. congruence.
    + intros Hout. exfalso. apply status_literals_differ. congruence.
Qed.

(** ** Listings as sets of rows *)

Lemma insert_by_index_perm c l : Permutation (insert_by_index c l) (c :: l).
Proof.
  induction l as [|d l IH]; simpl; [reflexivity|].
  destruct (card_index c <=? card_index d); [reflexivity|].
  rewrite IH. apply perm_swap.
Qed.

Lemma order_by_card_index_perm l : Permutation (order_by_card_index l) l.
Proof.
  induction l as [|c l IH]; simpl; [reflexivity|].
  rewrite insert_by_index_perm. constructor. exact IH.
Qed.

Lemma in_order_by_card_index c l : In c (order_by_card_index l) <-> In c l.
Proof.
  split; apply Permutation_in;
    [apply order_by_card_index_perm | symmetry; apply order_by_card_index_perm].
Qed.

Lemma in_case_with_status_spec case st c :
  in_case_with_status case st c = true <-> case_number c = case /\ status c = st.
Proof.
  unfold in_case_with_status. rewrite andb_true_iff, !String.eqb_eq. tauto.
Qed.

Lemma in_available case db r :
  In r (get_available_cards_by_case case db) <->
  exists c, In c db /\ case_number c = case /\ status c = AVAILABLE /\
            r = mkAvailableRow (id c) (card_number c) (capacity c).
Proof.
  unfold get_available_cards_by_case. rewrite in_map_iff. split.
  - intros [c [Hr Hc]]. apply in_order_by_card_index, filter_In in Hc.
    destruct Hc as [Hc Hf]. apply in_case_with_status_spec in Hf.
    exists c. intuition.
  - intros [c [Hc [Hcase [Hst Hr]]]]. exists c. split; [auto|].
    apply in_order_by_card_index, filter_In. split; [exact Hc|].
    apply in_case_with_status_spec. auto.
Qed.

Lemma in_checked_out case db r :
  In r (get_checked_out_cards_by_case case db) <->
  exists c, In c db /\ case_number c = case /\ status c = CHECKED_OUT /\
            r = mkCheckedOutRow (id c) (card_number c) (capacity c)
                  (user_name c) (equipment c) (shoot_content c)
                  (checkout_date c).
Proof.
  unfold get_checked_out_cards_by_case. rewrite in_map_iff. split.
  - intros [c [Hr Hc]]. apply in_order_by_card_index, filter_In in Hc.
    destruct Hc as [Hc Hf]. apply in_case_with_status_spec in Hf.
    exists c. intuition.
  - intros [c [Hc [Hcase [Hst Hr]]]]. exists c. split; [auto|].
    apply in_order_by_card_index, filter_In. split; [exact Hc|].
    apply in_case_with_status_spec. auto.
Qed.

Lemma in_cards_by_case case db r :
  In r (get_cards_by_case case db) <->
  exists c, In c db /\ case_number c = case /\
            r = mkCaseRow (card_number c) (status c) (capacity c)
                  (checkout_date c) (user_name c) (equipment c)
                  (case_number c) (shoot_content c).
Proof.
  unfold get_cards_by_case. rewrite in_map_iff. split.
  - intros [c [Hr Hc]]. apply in_order_by_card_index, filter_In in Hc.
    destruct Hc as [Hc Hf]. apply String.eqb_eq in Hf.
    exists c. intuition.
  - intros [c [Hc [Hcase Hr]]]. exists c. split; [auto|].
    apply in_order_by_card_index, filter_In. split; [exact Hc|].
    apply String.eqb_eq. auto.
Qed.

(** The labels of the three listings, as labels of filtered rows. *)
Lemma available_labels case db :
  Permutation (map av_card_number (get_available_cards_by_case case db))
              (map card_number (filter (in_case_with_status case AVAILABLE) db)).
Proof.
  unfold get_available_cards_by_case. rewrite map_map. simpl.
  apply Permutation_map, order_by_card_index_perm.
Qed.

Lemma checked_out_labels case db :
  Permutation (map co_card_number (get_checked_out_cards_by_case case db))
              (map card_number (filter (in_case_with_status case CHECKED_OUT) db)).
Proof.
  unfold get_checked_out_cards_by_case. rewrite map_map. simpl.
  apply Permutation_map, order_by_card_index_perm.
Qed.

Lemma case_labels case db :
  Permutation (map cs_card_number (get_cards_by_case case db))
              (map card_number (filter (fun c => (case_number c =? case)%string) db)).
Proof.
  unfold get_cards_by_case. rewrite map_map. simpl.
  apply Permutation_map, order_by_card_index_perm.
Qed.

Lemma split_by_status case db :
  Forall two_valued db ->
  Permutation (filter (in_case_with_status case AVAILABLE) db ++
               filter (in_case_with_status case CHECKED_OUT) db)
              (filter (fun c => (case_number c =? case)%string) db).
Proof.
  induction 1 as [|c db Hc _ IH]; simpl; [reflexivity|].
  change (in_case_with_status case AVAILABLE c)
    with ((case_number c =? case)%string && (status c =? AVAILABLE)%string).
  change (in_case_with_status case CHECKED_OUT c)
    with ((case_number c =? case)%string && (status c =? CHECKED_OUT)%string).
  destruct (case_number c =? case)%string; simpl; [|exact IH].
  destruct Hc as [Hc | Hc]; rewrite Hc.
  - rewrite String.eqb_refl.
    destruct (String.eqb_spec AVAILABLE CHECKED_OUT) as [E|_];
      [destruct (status_literals_differ E)|].
    simpl. constructor. exact IH.
  - rewrite String.eqb_refl.
    destruct (String.eqb_spec CHECKED_OUT AVAILABLE) as [E|_];
      [destruct (status_literals_differ (eq_sym E))|].
    simpl. symmetry. apply Permutation_cons_app. symmetry. exact IH.
Qed.

Lemma NoDup_map_eq {A B} (f : A -> B) l x y :
  NoDup (map f l) -> In x l -> In y l -> f x = f y -> x = y.
Proof.
  induction l as [|a l IH]; simpl; [tauto|].
  intros Hnd Hx Hy E. inversion Hnd as [|? ? Hnotin Hnd']; subst.
  destruct Hx as [-> | Hx], Hy as [-> | Hy]; auto.
  - exfalso. apply Hnotin. rewrite E. apply in_map, Hy.
  - exfalso. apply Hnotin. rewrite <- E. apply in_map, Hx.
Qed.

Lemma filter_labels_NoDup (p : Card -> bool) db :
  NoDup (map card_number db) -> NoDup (map card_number (filter p db)).
Proof.
  induction db as [|c db IH]; simpl; [auto|].
  intros Hnd. inversion Hnd as [|? ? Hnotin Hnd']; subst.
  destruct (p c); simpl; [|auto]. constructor; [|auto].
  intros Hin. apply Hnotin. apply in_map_iff in Hin.
  destruct Hin as [d [E Hd]]. apply filter_In in Hd.
  apply in_map_iff. exists d. tauto.
Qed.

Lemma shape_labels_distinct db :
  seeded_shape db -> NoDup (map card_number db).
Proof.
  intros [Hk _].
  assert (E : forall l, map card_number l =
                        map (fun k => snd (fst (fst (fst k)))) (map key_columns l)).
  { intros l. rewrite map_map. reflexivity. }
  rewrite E, Hk, <- E. apply seeded_labels_distinct.
Qed.

Lemma available_label_inv case db x :
  In x (map av_card_number (get_available_cards_by_case case db)) <->
  exists c, In c db /\ case_number c = case /\ status c = AVAILABLE /\
            card_number c = x.
Proof.
  rewrite in_map_iff. split.
  - intros [r [Hx Hr]]. apply in_available in Hr.
    destruct Hr as [c [Hc [Hcase [Hst ->]]]]. exists c. auto.
  - intros [c [Hc [Hcase [Hst Hx]]]].
    exists (mkAvailableRow (id c) (card_number c) (capacity c)).
    split; [exact Hx|]. apply in_available. exists c. auto.
Qed.

Lemma checked_out_label_inv case db x :
  In x (map co_card_number (get_checked_out_cards_by_case case db)) <->
  exists c, In c db /\ case_number c = case /\ status c = CHECKED_OUT /\
            card_number c = x.
Proof.
  rewrite in_map_iff. split.
  - intros [r [Hx Hr]]. apply in_checked_out in Hr.
    destruct Hr as [c [Hc [Hcase [Hst ->]]]]. exists c. auto.
  - intros [c [Hc [Hcase [Hst Hx]]]].
    eexists. split; [|apply in_checked_out; exists c; eauto]. exact Hx.
Qed.

(** C5. In every connection reached from the seeded table by checkouts and
    returns, and for every container: the labels listed as available
    together with the labels listed as checked out are, up to order, the
    labels of the whole container, each once; no label is in both listings;
    and a row of the container is in the first listing exactly when its
    status is AVAILABLE, in the second exactly when it is CHECKED_OUT. *)
Theorem listings_partition_by_status :
  forall w, reachable (fun _ => True) w ->
  forall case,
    let available :=
      map av_card_number (get_available_cards_by_case case (rows w)) in
    let lent :=
      map co_card_number (get_checked_out_cards_by_case case (rows w)) in
    let all := get_cards_by_case case (rows w) in
    Permutation (available ++ lent) (map cs_card_number all) /\
    NoDup (map cs_card_number all) /\
    (forall x, In x available -> ~ In x lent) /\
    (forall r, In r all ->
       (In (cs_card_number r) available <-> cs_status r = AVAILABLE) /\
       (In (cs_card_number r) lent <-> cs_status r = CHECKED_OUT)).
Proof.
  intros w Hw case available lent all.
  pose proof (reachable_shape _ w Hw) as Hshape.
  pose proof (shape_labels_distinct _ Hshape) as Hnd.
  destruct Hshape as [_ Htwo].
  assert (Hsame : forall c d, In c (rows w) -> In d (rows w) ->
                    card_number c = card_number d -> c = d).
  { intros c d Hc Hd. apply (NoDup_map_eq card_number (rows w)); assumption. }
  split; [|split; [|split]].
  - subst available lent all.
    rewrite available_labels, checked_out_labels, case_labels, <- map_app.
    apply Permutation_map, split_by_status, Htwo.
  - subst all. eapply Permutation_NoDup; [symmetry; apply case_labels|].
    apply filter_labels_NoDup, Hnd.
  - intros x Ha Hl. subst available lent.
    apply available_label_inv in Ha. apply checked_out_label_inv in Hl.
    destruct Ha as [c [Hc [_ [Hst Hx]]]], Hl as [d [Hd [_ [Hst' Hx']]]].
    assert (c = d) by (apply Hsame; congruence). subst d.
    apply status_literals_differ. congruence.
  - intros r Hr. subst all. apply in_cards_by_case in Hr.
    destruct Hr as [c [Hc [Hcase ->]]]. simpl. subst available lent. split.
    + rewrite available_label_inv. split.
      * intros [d [Hd [_ [Hst Hx]]]].
        rewrite <- (Hsame d c Hd Hc Hx). exact Hst.
      * intros Hst. exists c. auto.
    + rewrite checked_out_label_inv. split.
      * intros [d [Hd [_ [Hst Hx]]]].
        rewrite <- (Hsame d c Hd Hc Hx). exact Hst.
      * intros Hst. exists c. auto.
Qed.

(** ** Calls that meet no fault *)

Section QuietCalls.

Variable now : nat -> Timestamp.
Variables u e s : option string.

Lemma quiet_conn w : quiet w -> w = mkConn (rows w) None [] (clock w).
Proof. destruct w as [r sv p k]. intros [Hs Hp]. simpl in *. subst. reflexivity. Qed.

Lemma for_each_stamps card_ids : forall db s0 k,
  for_each card_ids (fun card_id =>
      t <- datetime_now now ;;
      UPDATE (update_where_id card_id (checked_out t u e s)))
    (mkConn db (Some s0) [] k)
  = (Returned tt,
     mkConn (stamp_all now u e s card_ids db k) (Some s0) []
            (k + List.length card_ids)).
Proof.
  induction card_ids as [|i rest IH]; intros db s0 k; simpl.
  - rewrite Nat.add_0_r. reflexivity.
  - unfold bind at 1. unfold bind at 1. simpl.
    rewrite IH. rewrite Nat.add_succ_r. reflexivity.
Qed.

Lemma checkout_cards_quiet card_ids w :
  quiet w ->
  checkout_cards now card_ids u e s w =
  match unavailable_cards (select_id_status card_ids (rows w)) with
  | [] =>
      (Returned (true, checkout_success),
       mkConn (stamp_all now u e s card_ids (rows w) (clock w)) None []
              (clock w + List.length card_ids))
  | x :: l =>
      (Returned (false, checkout_failure (x :: l)), w)
  end.
Proof.
  intros [Hs Hp]. destruct w as [db sv p k]. simpl in Hs, Hp. subst sv p.
  unfold checkout_cards, try_except, checkout_body.
  unfold bind at 1. simpl. unfold bind at 1. simpl.
  destruct (unavailable_cards (select_id_status card_ids db)) as [|x l].
  - unfold bind at 1. rewrite for_each_stamps. reflexivity.
  - reflexivity.
Qed.

Lemma return_card_quiet card_id w :
  quiet w ->
  return_card card_id w =
  match select_status card_id (rows w) with
  | Some st =>
      if negb (st =? CHECKED_OUT)%string
      then (Returned (false, return_failure), w)
      else (Returned (true, return_success),
            mkConn (update_where_id card_id returned (rows w)) None []
                   (clock w))
  | None => (Returned (false, return_failure), w)
  end.
Proof.
  intros [Hs Hp]. destruct w as [db sv p k]. simpl in Hs, Hp. subst sv p.
  unfold return_card, try_except, return_body.
  unfold bind at 1. simpl. unfold bind at 1. simpl.
  destruct (select_status card_id db) as [st|]; [|reflexivity].
  destruct (negb (st =? CHECKED_OUT)%string); reflexivity.
Qed.

(** The loop, row by row. *)
Lemma stamp_all_map card_ids : forall db k,
  stamp_all now u e s card_ids db k = map (stamp_card now u e s card_ids k) db.
Proof.
  induction card_ids as [|i rest IH]; intros db k; simpl.
  - symmetry. apply map_id.
  - rewrite IH. unfold update_where_id. rewrite map_map. reflexivity.
Qed.

Lemma stamp_card_spec card_ids : forall k c,
  (In (id c) card_ids /\
   exists t, stamp_card now u e s card_ids k c = checked_out t u e s c) \/
  (~ In (id c) card_ids /\ stamp_card now u e s card_ids k c = c).
Proof.
  induction card_ids as [|i rest IH]; intros k c; simpl.
  - right. tauto.
  - destruct (Z.eqb_spec (id c) i) as [E|E].
    + left. split; [auto|].
      destruct (IH (S k) (checked_out (now k) u e s c)) as [[_ [t Ht]] | [_ Ht]];
        rewrite Ht; [exists t | exists (now k)]; reflexivity.
    + destruct (IH (S k) c) as [[Hin Ht] | [Hin Ht]].
      * left. split; [auto|exact Ht].
      * right. split; [|exact Ht]. intros [H|H]; [congruence|auto].
Qed.

Lemma stamp_all_keys card_ids db k :
  map key_columns (stamp_all now u e s card_ids db k) = map key_columns db.
Proof.
  rewrite stamp_all_map, map_map. apply map_ext. intros c.
  destruct (stamp_card_spec card_ids k c) as [[_ [t Ht]] | [_ Ht]];
    rewrite Ht; reflexivity.
Qed.

End QuietCalls.

(** ** Checkout *)

Lemma in_id_list (i : Z) (card_ids : list Z) :
  existsb (Z.eqb i) card_ids = true <-> In i card_ids.
Proof.
  rewrite existsb_exists. split.
  - intros [j [Hj E]]. apply Z.eqb_eq in E. congruence.
  - intros H. exists i. split; [exact H | apply Z.eqb_refl].
Qed.

Lemma in_select_id_status card_ids db p :
  In p (select_id_status card_ids db) <->
  exists c, In c db /\ In (id c) card_ids /\ p = (id c, status c).
Proof.
  unfold select_id_status. rewrite in_map_iff. split.
  - intros [c [E Hc]]. apply filter_In in Hc. destruct Hc as [Hc Hin].
    apply in_id_list in Hin. exists c. auto.
  - intros [c [Hc [Hin E]]]. exists c. split; [auto|].
    apply filter_In. split; [exact Hc | apply in_id_list, Hin].
Qed.

Lemma in_unavailable_cards card_ids db x :
  In x (unavailable_cards (select_id_status card_ids db)) <->
  exists c, In c db /\ In (id c) card_ids /\ status c <> AVAILABLE /\
            x = str (id c).
Proof.
  unfold unavailable_cards. rewrite in_map_iff. split.
  - intros [p [E Hp]]. apply filter_In in Hp. destruct Hp as [Hp Hst].
    apply in_select_id_status in Hp. destruct Hp as [c [Hc [Hin ->]]].
    simpl in *. apply negb_true_iff, String.eqb_neq in Hst.
    exists c. auto.
  - intros [c [Hc [Hin [Hst E]]]]. exists (id c, status c). split; [auto|].
    apply filter_In. split.
    + apply in_select_id_status. exists c. auto.
    + simpl. apply negb_true_iff, String.eqb_neq, Hst.
Qed.

Lemma unavailable_cards_explicit card_ids db :
  unavailable_cards (select_id_status card_ids db) =
  map (fun c => str (id c))
      (filter (fun c => existsb (Z.eqb (id c)) card_ids &&
                        negb (status c =? AVAILABLE)%string) db).
Proof.
  unfold unavailable_cards, select_id_status.
  induction db as [|c db IH]; simpl; [reflexivity|].
  destruct (existsb (Z.eqb (id c)) card_ids); simpl; [|exact IH].
  destruct (negb (status c =? AVAILABLE)%string); simpl; [|exact IH].
  rewrite IH. reflexivity.
Qed.

(** C1. When a batch of ids that [sqlite3] can bind holds the id of a row
    whose status is CHECKED_OUT, a call of [checkout_cards] that meets no
    store fault returns [False], leaves the connection as it found it (every
    row as it was, no transaction open), and its message is
    ['以下のカードは現在貸出できません: '] followed by the ids, in decimal, in
    table order and separated by [', '], of exactly the rows that have their
    id in the batch and are not AVAILABLE; the id of the CHECKED_OUT row is
    among them. *)
Theorem checkout_all_or_nothing :
  forall now card_ids u e s w,
    quiet w ->
    bindable card_ids ->
    (exists c, In c (rows w) /\ In (id c) card_ids /\ status c = CHECKED_OUT) ->
    exists names,
      checkout_cards now card_ids u e s w
        = (Returned (false,
                     ("以下のカードは現在貸出できません: " ++
                      String.concat ", " names)%string), w) /\
      names = map (fun c => str (id c))
                (filter (fun c => existsb (Z.eqb (id c)) card_ids &&
                                  negb (status c =? AVAILABLE)%string)
                        (rows w)) /\
      (forall x, In x names <->
         exists c, In c (rows w) /\ In (id c) card_ids /\
                   status c <> AVAILABLE /\ x = str (id c)) /\
      (forall c, In c (rows w) -> In (id c) card_ids ->
                 status c = CHECKED_OUT -> In (str (id c)) names).
Proof.
  intros now card_ids u e s w Hw _ [c [Hc [Hin Hst]]].
  exists (unavailable_cards (select_id_status card_ids (rows w))).
  assert (Hlent : forall d, In d (rows w) -> In (id d) card_ids ->
            status d = CHECKED_OUT ->
            In (str (id d))
               (unavailable_cards (select_id_status card_ids (rows w)))).
  { intros d Hd Hdin Hdst. apply in_unavailable_cards. exists d.
    repeat split; auto.
    rewrite Hdst. intros E'. apply status_literals_differ. congruence. }
  split; [|split; [apply unavailable_cards_explicit |
                   split; [intros x; apply in_unavailable_cards | exact Hlent]]].
  rewrite checkout_cards_quiet by exact Hw.
  destruct (unavailable_cards (select_id_status card_ids (rows w)))
    as [|x l] eqn:E; [|reflexivity].
  exfalso. exact (Hlent c Hc Hin Hst).
Qed.

(** C2. No row of the seeded table has id 121, yet the batch [[121]] is
    reported as checked out, and the batch [[1; 121]] is reported as checked
    out with row 1 turned to CHECKED_OUT: an id without a row is not among
    the ids [checkout_cards] finds unavailable. *)
Theorem checkout_of_unknown_id_succeeds :
  select_status 121 seeded = None /\
  fst (checkout_cards sample_clock [121] (Some "Alice") (Some "CamA")
         (Some "Interview") (connect seeded [] 0))
    = Returned (true, checkout_success) /\
  (let r := checkout_cards sample_clock [1; 121] (Some "Alice") (Some "CamA")
              (Some "Interview") (connect seeded [] 0) in
   fst r = Returned (true, checkout_success) /\
   select_status 1 (rows (snd r)) = Some CHECKED_OUT).
Proof. vm_compute. repeat split; reflexivity. Qed.

Lemma select_nothing db : select_id_status [] db = [].
Proof.
  unfold select_id_status. induction db as [|c db IH]; simpl; auto.
Qed.

(** C10, as amended. A call of [checkout_cards] with no id at all, meeting
    no store fault, leaves the connection as it found it, so that no card
    is checked out; what it returns is the success result. *)
Theorem checkout_of_nothing :
  forall now u e s w,
    quiet w ->
    checkout_cards now [] u e s w = (Returned (true, checkout_success), w).
Proof.
  intros now u e s w Hw. rewrite checkout_cards_quiet by exact Hw.
  rewrite select_nothing. simpl. rewrite Nat.add_0_r.
  symmetry. f_equal. apply quiet_conn, Hw.
Qed.

Lemma checkout_of_nothing_witness :
  quiet (connect seeded [] 0) /\
  checkout_cards sample_clock [] None None None (connect seeded [] 0)
    = (Returned (true, checkout_success), connect seeded [] 0).
Proof.
  assert (H : quiet (connect seeded [] 0)) by (split; reflexivity).
  split; [exact H | apply (checkout_of_nothing _ _ _ _ _ H)].
Defined.

(** C10 as stated fails: on the seeded table the empty batch is not answered
    by a failure result. *)
Lemma empty_batch_is_no_failure :
  fst (checkout_cards sample_clock [] (Some "Alice") (Some "CamA")
         (Some "Interview") (connect seeded [] 0))
    = Returned (true, checkout_success) /\
  ~ (exists msg,
       fst (checkout_cards sample_clock [] (Some "Alice") (Some "CamA")
              (Some "Interview") (connect seeded [] 0))
       = Returned (false, msg)).
Proof.
  assert (H : fst (checkout_cards sample_clock [] (Some "Alice") (Some "CamA")
                     (Some "Interview") (connect seeded [] 0))
              = Returned (true, checkout_success))
    by (vm_compute; reflexivity).
  split; [exact H|]. intros [msg Hm]. rewrite H in Hm. discriminate Hm.
Qed.

(** ** Return *)

Lemma select_status_some card_id db st :
  select_status card_id db = Some st ->
  exists c, In c db /\ id c = card_id /\ status c = st.
Proof.
  unfold select_status. induction db as [|c db IH]; simpl; [discriminate|].
  destruct (Z.eqb_spec (id c) card_id) as [E|E]; simpl.
  - intros H. injection H as H. exists c. auto.
  - intros H. destruct (IH H) as [d [Hd Hrest]]. exists d. auto.
Qed.

Lemma select_status_none card_id db :
  select_status card_id db = None ->
  forall c, In c db -> id c <> card_id.
Proof.
  unfold select_status. induction db as [|c db IH]; simpl; [tauto|].
  destruct (Z.eqb_spec (id c) card_id) as [E|E]; simpl; [discriminate|].
  intros H d [<- | Hd]; auto.
Qed.

(** With [id] a key, [fetchone] finds the row of that id. *)
Lemma select_status_key db c :
  NoDup (map id db) -> In c db -> select_status (id c) db = Some (status c).
Proof.
  intros Hnd Hc. destruct (select_status (id c) db) as [st|] eqn:E.
  - apply select_status_some in E. destruct E as [d [Hd [Hid Hst]]].
    rewrite (NoDup_map_eq id db d c Hnd Hd Hc Hid) in Hst. congruence.
  - exfalso. exact (select_status_none _ _ E c Hc eq_refl).
Qed.

Lemma select_status_returned card_id db :
  select_status card_id (update_where_id card_id returned db) =
  match select_status card_id db with
  | Some _ => Some AVAILABLE
  | None => None
  end.
Proof.
  unfold select_status, update_where_id.
  induction db as [|c db IH]; simpl; [reflexivity|].
  destruct (Z.eqb_spec (id c) card_id) as [E|E]; simpl.
  - destruct (Z.eqb_spec (id c) card_id); [reflexivity | contradiction].
  - destruct (Z.eqb_spec (id c) card_id); [contradiction | exact IH].
Qed.

Lemma in_update_where_id card_id f db c' :
  In c' (update_where_id card_id f db) <->
  exists c, In c db /\
    ((id c = card_id /\ c' = f c) \/ (id c <> card_id /\ c' = c)).
Proof.
  unfold update_where_id. rewrite in_map_iff. split.
  - intros [c [E Hc]]. exists c. split; [exact Hc|].
    destruct (Z.eqb_spec (id c) card_id); auto.
  - intros [c [Hc H]]. exists c. split; [|exact Hc].
    destruct (Z.eqb_spec (id c) card_id); intuition congruence.
Qed.

(** C3. On a connection that meets no store fault, and for an id that
    [sqlite3] can bind, [return_card] succeeds exactly when the id is that
    of a row with status CHECKED_OUT.  On success, with the message
    ['返却が完了しました'], that row is AVAILABLE with its four
    checkout-scoped columns null, every other row is as before, and a second
    call with the same id fails and changes nothing.  When no such row
    exists the call fails, with the message ['このカードは返却できません'],
    and changes nothing. *)
Theorem return_card_exactly_when_checked_out :
  forall card_id w,
    quiet w ->
    NoDup (map id (rows w)) ->
    sqlite_integer card_id ->
    ((exists c, In c (rows w) /\ id c = card_id /\ status c = CHECKED_OUT) ->
     exists w',
       return_card card_id w = (Returned (true, "返却が完了しました"), w') /\
       rows w' = update_where_id card_id returned (rows w) /\
       saved w' = None /\
       (forall c', In c' (rows w') -> id c' = card_id ->
                   status c' = AVAILABLE /\ all_null c') /\
       (forall c', In c' (rows w') -> id c' <> card_id -> In c' (rows w)) /\
       return_card card_id w'
         = (Returned (false, "このカードは返却できません"), w')) /\
    (~ (exists c, In c (rows w) /\ id c = card_id /\ status c = CHECKED_OUT) ->
     return_card card_id w
       = (Returned (false, "このカードは返却できません"), w)).
Proof.
  intros card_id w Hw Hnd _. split.
  - intros [c [Hc [Hid Hst]]].
    pose proof (select_status_key _ c Hnd Hc) as Hsel.
    rewrite Hid, Hst in Hsel.
    eexists. split; [|split; [|split; [|split; [|split]]]].
    + rewrite return_card_quiet by exact Hw. rewrite Hsel.
      rewrite String.eqb_refl. simpl. reflexivity.
    + reflexivity.
    + reflexivity.
    + simpl. intros c' Hc' Hid'. apply in_update_where_id in Hc'.
      destruct Hc' as [d [_ [[_ ->] | [Hne ->]]]]; [|contradiction].
      unfold all_null. simpl. auto.
    + simpl. intros c' Hc' Hid'. apply in_update_where_id in Hc'.
      destruct Hc' as [d [Hd [[E ->] | [_ ->]]]]; [|exact Hd].
      simpl in Hid'. contradiction.
    + rewrite return_card_quiet by (split; reflexivity). simpl.
      rewrite select_status_returned, Hsel.
      destruct (String.eqb_spec AVAILABLE CHECKED_OUT) as [E|_];
        [destruct (status_literals_differ E) | reflexivity].
  - intros Hno. rewrite return_card_quiet by exact Hw.
    destruct (select_status card_id (rows w)) as [st|] eqn:Hsel; [|reflexivity].
    destruct (String.eqb_spec st CHECKED_OUT) as [E|_]; [|reflexivity].
    exfalso. apply Hno. subst st. apply select_status_some in Hsel. exact Hsel.
Qed.

(** ** Checkout, then the listings; checkout, then return *)

Lemma checkout_success_inv now card_ids u e s w msg w' :
  quiet w ->
  checkout_cards now card_ids u e s w = (Returned (true, msg), w') ->
  unavailable_cards (select_id_status card_ids (rows w)) = [] /\
  w' = mkConn (map (stamp_card now u e s card_ids (clock w)) (rows w)) None []
              (clock w + List.length card_ids).
Proof.
  intros Hw H. rewrite checkout_cards_quiet in H by exact Hw.
  destruct (unavailable_cards (select_id_status card_ids (rows w))) as [|x l].
  - rewrite stamp_all_map in H. injection H as _ H. auto.
  - discriminate H.
Qed.

(** C4. A card listed as available in a container, once a batch holding its
    id has been checked out with borrower [u], equipment [e] and note [s],
    is listed as checked out in that container with the same id, label and
    capacity, with exactly [u], [e] and [s] and a non-null timestamp, and
    no row of the container's available listing has its id. *)
Theorem checkout_then_listed :
  forall now card_ids u e s w msg w' case i label cap,
    quiet w ->
    In (mkAvailableRow i label cap)
       (get_available_cards_by_case case (rows w)) ->
    In i card_ids ->
    checkout_cards now card_ids u e s w = (Returned (true, msg), w') ->
    (exists t,
       In (mkCheckedOutRow i label cap u e s (Some t))
          (get_checked_out_cards_by_case case (rows w'))) /\
    (forall r, In r (get_available_cards_by_case case (rows w')) ->
               av_id r <> i).
Proof.
  intros now card_ids u e s w msg w' case i label cap Hw Hav Hin Hcall.
  destruct (checkout_success_inv _ _ _ _ _ _ _ _ Hw Hcall) as [_ ->].
  simpl. apply in_available in Hav.
  destruct Hav as [c [Hc [Hcase [Hst E]]]]. injection E as -> -> ->.
  split.
  - destruct (stamp_card_spec now u e s card_ids (clock w) c)
      as [[_ [t Ht]] | [Hno _]]; [|contradiction].
    exists t. apply in_checked_out. exists (checked_out t u e s c).
    repeat split; auto. rewrite <- Ht. apply in_map, Hc.
  - intros r Hr Hid. apply in_available in Hr.
    destruct Hr as [c' [Hc' [_ [Hst' ->]]]]. simpl in Hid.
    apply in_map_iff in Hc'. destruct Hc' as [d [Hd _]].
    destruct (stamp_card_spec now u e s card_ids (clock w) d)
      as [[_ [t Ht]] | [Hno Ht]]; rewrite Ht in Hd; subst c'.
    + simpl in Hst'. apply status_literals_differ. congruence.
    + apply Hno. rewrite Hid. exact Hin.
Qed.

(** C8. A batch holding [card_id] is checked out and [card_id] is then
    returned, both with success and without store fault.  Then the id,
    label, index, capacity and container of every row are the same before
    the checkout, after it and after the return; the card was AVAILABLE to
    begin with; between the two calls it is CHECKED_OUT with a timestamp and
    the borrower, equipment and note of the call; after the return it is
    AVAILABLE again with the four checkout-scoped columns null. *)
Theorem lifecycle_frame :
  forall now card_ids u e s card_id w m1 w1 m2 w2,
    quiet w ->
    In card_id card_ids ->
    checkout_cards now card_ids u e s w = (Returned (true, m1), w1) ->
    return_card card_id w1 = (Returned (true, m2), w2) ->
    map key_columns (rows w1) = map key_columns (rows w) /\
    map key_columns (rows w2) = map key_columns (rows w) /\
    (exists c, In c (rows w) /\ id c = card_id /\ status c = AVAILABLE) /\
    (forall c, In c (rows w1) -> id c = card_id ->
       status c = CHECKED_OUT /\ checkout_date c <> None /\
       user_name c = u /\ equipment c = e /\ shoot_content c = s) /\
    (forall c, In c (rows w2) -> id c = card_id ->
       status c = AVAILABLE /\ all_null c).
Proof.
  intros now card_ids u e s card_id w m1 w1 m2 w2 Hw Hin Hout Hback.
  destruct (checkout_success_inv _ _ _ _ _ _ _ _ Hw Hout) as [Hnone ->].
  rewrite return_card_quiet in Hback by (split; reflexivity).
  simpl in Hback |- *.
  set (db1 := map (stamp_card now u e s card_ids (clock w)) (rows w)) in *.
  assert (Hk1 : map key_columns db1 = map key_columns (rows w)).
  { subst db1. rewrite <- stamp_all_map. apply stamp_all_keys. }
  assert (Hmid : forall c, In c db1 -> id c = card_id ->
            exists c0 t, In c0 (rows w) /\ id c0 = card_id /\
                         c = checked_out t u e s c0).
  { intros c Hc Hid. apply in_map_iff in Hc. destruct Hc as [c0 [E Hc0]].
    destruct (stamp_card_spec now u e s card_ids (clock w) c0)
      as [[_ [t Ht]] | [Hno Ht]]; rewrite Ht in E; subst c.
    - exists c0, t. auto.
    - exfalso. apply Hno. rewrite Hid. exact Hin. }
  destruct (select_status card_id db1) as [st|] eqn:Hsel; [|discriminate].
  destruct (negb (st =? CHECKED_OUT)%string); [discriminate|].
  injection Hback as _ <-. simpl.
  split; [exact Hk1|]. split.
  { rewrite update_where_id_keys; [exact Hk1 | reflexivity]. }
  split.
  { apply select_status_some in Hsel. destruct Hsel as [c [Hc [Hid _]]].
    destruct (Hmid c Hc Hid) as [c0 [t [Hc0 [Hid0 _]]]].
    exists c0. repeat split; auto.
    destruct (String.eqb_spec (status c0) AVAILABLE) as [E|E]; [exact E|].
    exfalso.
    assert (H : In (str (id c0))
                   (unavailable_cards (select_id_status card_ids (rows w)))).
    { apply in_unavailable_cards. exists c0. repeat split; auto.
      rewrite Hid0. exact Hin. }
    rewrite Hnone in H. exact H. }
  split.
  - intros c Hc Hid. destruct (Hmid c Hc Hid) as [c0 [t [_ [_ ->]]]].
    simpl. repeat split; auto. discriminate.
  - intros c Hc Hid. apply in_update_where_id in Hc.
    destruct Hc as [d [_ [[_ ->] | [Hne ->]]]]; [|contradiction].
    unfold all_null. simpl. auto.
Qed.

(** ** Seeding *)

Lemma seed_row_spec c :
  seed_row c = true ->
  status c = AVAILABLE /\
  spec_capacity (case_number c) (card_index c) = Some (capacity c).
Proof.
  unfold seed_row. intros H. apply andb_true_iff in H. destruct H as [Hst H].
  apply String.eqb_eq in Hst. split; [exact Hst|].
  destruct (spec_capacity (case_number c) (card_index c)) as [cap|];
    [|discriminate].
  apply String.eqb_eq in H. congruence.
Qed.

Lemma insert_initial_data_nonempty c db :
  insert_initial_data (c :: db) = Some (c :: db).
Proof.
  unfold insert_initial_data.
  replace (Z.of_nat (List.length (c :: db)) =? 0) with false; [reflexivity|].
  symmetry. apply Z.eqb_neq. simpl List.length. lia.
Qed.

(** C6. Seeding the empty table gives 120 rows; each of the three
    containers holds the indices 1 to 40, in this order; every row is
    AVAILABLE and has the capacity the rule gives for its container and
    index (hence a container among the three); the labels are pairwise
    distinct; seeding the seeded table again returns it unchanged, as
    seeding any table that has a row does. *)
Theorem seed_deterministic_and_idempotent :
  exists db,
    insert_initial_data [] = Some db /\
    List.length db = 120%nat /\
    indices_of SD1 db = range_1_41 /\
    indices_of SD2 db = range_1_41 /\
    indices_of microSD db = range_1_41 /\
    Forall (fun c => status c = AVAILABLE /\
                     spec_capacity (case_number c) (card_index c)
                       = Some (capacity c)) db /\
    NoDup (map card_number db) /\
    insert_initial_data db = Some db /\
    (forall c rest, insert_initial_data (c :: rest) = Some (c :: rest)).
Proof.
  exists seeded.
  split; [exact seeded_is_seed|].
  split; [vm_compute; reflexivity|].
  split; [vm_compute; reflexivity|].
  split; [vm_compute; reflexivity|].
  split; [vm_compute; reflexivity|].
  split.
  { apply Forall_forall. intros c Hc. apply seed_row_spec.
    assert (H : forallb seed_row seeded = true) by (vm_compute; reflexivity).
    rewrite forallb_forall in H. exact (H c Hc). }
  split; [exact seeded_labels_distinct|].
  split; [vm_compute; reflexivity | exact insert_initial_data_nonempty].
Qed.

(** ** Exceptions inside the transaction *)

Section Rollback.

Variable db0 : Table.

Lemma untouched_stable : stable (untouched db0).
Proof. intros w faults k Hw. exact Hw. Qed.

Lemma untouched_abandon w : untouched db0 w -> untouched db0 (abandon w).
Proof. intros Hw. open_conn; conn_facts. Qed.

Lemma untouched_execute {A} (sem : Conn -> Result A * Conn) Q :
  hoare (untouched db0) sem Q (fun _ => (untouched db0)) ->
  hoare (untouched db0) (execute sem) Q (fun _ => (untouched db0)).
Proof.
  intros H. apply hoare_execute; auto using untouched_stable, untouched_abandon.
Qed.

Lemma untouched_BEGIN : hoare (untouched db0) BEGIN (fun _ => (untouched db0)) (fun _ => (untouched db0)).
Proof. apply untouched_execute. intros w Hw. open_conn; conn_facts. Qed.

Lemma untouched_ROLLBACK : hoare (untouched db0) ROLLBACK (fun _ => (untouched db0)) (fun _ => (untouched db0)).
Proof. apply untouched_execute. intros w Hw. open_conn; conn_facts. Qed.

Lemma untouched_SELECT {A} (q : Table -> A) :
  hoare (untouched db0) (SELECT q) (fun _ => (untouched db0)) (fun _ => (untouched db0)).
Proof. apply untouched_execute. intros w Hw. exact Hw. Qed.

Lemma untouched_UPDATE f : hoare (untouched db0) (UPDATE f) (fun _ => (untouched db0)) (fun _ => (untouched db0)).
Proof. apply untouched_execute. intros w Hw. open_conn; conn_facts. Qed.

(** Once [COMMIT] has returned the rows are the new ones; until then, and
    when it raises, a rollback still leads to [db0]. *)
Lemma untouched_COMMIT :
  hoare (untouched db0) COMMIT (fun _ _ => True) (fun _ => (untouched db0)).
Proof. apply untouched_execute. intros w Hw. open_conn; conn_facts. Qed.

Lemma checkout_body_raises_safe now card_ids u e s :
  hoare (untouched db0) (checkout_body now card_ids u e s)
        (fun _ _ => True) (fun _ => (untouched db0)).
Proof.
  unfold checkout_body.
  eapply hoare_bind; [apply untouched_BEGIN | intros _u].
  eapply hoare_bind; [apply untouched_SELECT | intros statuses].
  cbv zeta. destruct (unavailable_cards statuses).
  - eapply hoare_bind.
    + apply hoare_for_each. intros card_id.
      eapply hoare_bind;
        [apply hoare_datetime_now, untouched_stable | intros t].
      apply untouched_UPDATE.
    + intros _v. eapply hoare_bind; [apply untouched_COMMIT | intros _w].
      apply hoare_ret; auto.
  - eapply hoare_bind; [apply untouched_ROLLBACK | intros _v].
    apply hoare_ret; auto.
Qed.

Lemma return_body_raises_safe card_id :
  hoare (untouched db0) (return_body card_id) (fun _ _ => True) (fun _ => (untouched db0)).
Proof.
  assert (Hfail : hoare (untouched db0) (ROLLBACK ;; ret (false, return_failure))
                        (fun _ _ => True) (fun _ => (untouched db0))).
  { eapply hoare_bind; [apply untouched_ROLLBACK | intros _v].
    apply hoare_ret; auto. }
  unfold return_body.
  eapply hoare_bind; [apply untouched_BEGIN | intros _u].
  eapply hoare_bind; [apply untouched_SELECT | intros [st|]]; [|exact Hfail].
  destruct (negb (st =? CHECKED_OUT)%string); [exact Hfail|].
  eapply hoare_bind; [apply untouched_UPDATE | intros _v].
  eapply hoare_bind; [apply untouched_COMMIT | intros _w].
  apply hoare_ret; auto.
Qed.

(** A [ROLLBACK] that returns lands on [db0]. *)
Lemma rollback_restores w w2 :
  untouched db0 w -> ROLLBACK w = (Returned tt, w2) ->
  rows w2 = db0 /\ saved w2 = None.
Proof.
  intros Hw H. unfold ROLLBACK, execute in H.
  destruct w as [r [sv|] [|[f|] fs] k]; unfold untouched in Hw; simpl in *;
    try discriminate; injection H as <-; simpl; auto.
Qed.

End Rollback.

(** X16. On a connection with no transaction open and with ids that
    [sqlite3] can bind, when a statement inside the [try] block of
    [checkout_cards] or of [return_card] raises [ex] and the [ROLLBACK] of
    the [except] clause completes, the call returns [False] with the
    message ['エラーが発生しました: '] followed by the text of [ex], the rows
    are those the call started from, and no transaction is left open. *)
Theorem exception_rolls_back :
  forall now card_ids u e s card_id w,
    saved w = None ->
    bindable card_ids ->
    sqlite_integer card_id ->
    (forall ex w1 w2,
       checkout_body now card_ids u e s w = (Raised ex, w1) ->
       ROLLBACK w1 = (Returned tt, w2) ->
       checkout_cards now card_ids u e s w
         = (Returned (false, ("エラーが発生しました: " ++ ex)%string), w2) /\
       rows w2 = rows w /\ saved w2 = None) /\
    (forall ex w1 w2,
       return_body card_id w = (Raised ex, w1) ->
       ROLLBACK w1 = (Returned tt, w2) ->
       return_card card_id w
         = (Returned (false, ("エラーが発生しました: " ++ ex)%string), w2) /\
       rows w2 = rows w /\ saved w2 = None).
Proof.
  intros now card_ids u e s card_id w Hidle _ _.
  assert (Hsafe : untouched (rows w) w) by (unfold untouched; rewrite Hidle; reflexivity).
  split; intros ex w1 w2 Hbody Hrb.
  - pose proof (checkout_body_raises_safe (rows w) now card_ids u e s w Hsafe) as H.
    rewrite Hbody in H. split.
    + unfold checkout_cards, try_except. rewrite Hbody.
      unfold rollback_and_report, bind. rewrite Hrb. reflexivity.
    + exact (rollback_restores (rows w) w1 w2 H Hrb).
  - pose proof (return_body_raises_safe (rows w) card_id w Hsafe) as H.
    rewrite Hbody in H. split.
    + unfold return_card, try_except. rewrite Hbody.
      unfold rollback_and_report, bind. rewrite Hrb. reflexivity.
    + exact (rollback_restores (rows w) w1 w2 H Hrb).
Qed.

(** C9. The [except] clause is meant to turn every exception into a pair,
    but its own [ROLLBACK] is not guarded: when the disk fills up under the
    [UPDATE] of a checkout, or an I/O error hits the [SELECT] of a return,
    and the engine ends the transaction, that [ROLLBACK] raises in its turn
    and the exception leaves the method: no pair is returned. *)
Lemma rollback_exception_escapes :
  fst (checkout_cards sample_clock [1] (Some "Alice") (Some "CamA")
         (Some "Interview") sample_full)
    = Raised "cannot rollback - no transaction is active" /\
  fst (return_card 1 sample_io)
    = Raised "cannot rollback - no transaction is active" /\
  ~ (exists b msg,
       fst (checkout_cards sample_clock [1] (Some "Alice") (Some "CamA")
              (Some "Interview") sample_full) = Returned (b, msg)).
Proof.
  assert (H : fst (checkout_cards sample_clock [1] (Some "Alice") (Some "CamA")
                     (Some "Interview") sample_full)
              = Raised "cannot rollback - no transaction is active")
    by (vm_compute; reflexivity).
  split; [exact H|]. split; [vm_compute; reflexivity|].
  intros [b [msg Hm]]. rewrite H in Hm. discriminate Hm.
Qed.

(** ** The theorems at work on the sample runs *)

Lemma sample_lent_run :
  checkout_cards sample_clock [1] (Some "Alice") (Some "CamA")
    (Some "Interview") (connect seeded [] 0)
  = (Returned (true, checkout_success), sample_lent).
Proof. vm_compute. reflexivity. Defined.

Lemma sample_back_run :
  return_card 1 sample_lent = (Returned (true, return_success), sample_back).
Proof. vm_compute. reflexivity. Defined.

Lemma sample_lent_quiet : quiet sample_lent.
Proof. split; reflexivity. Defined.

Lemma sample_card_lent : In sample_card (rows sample_lent).
Proof. vm_compute. left. reflexivity. Defined.

Lemma sample_lent_reachable ok :
  ok (Some "Alice") -> ok (Some "CamA") -> ok (Some "Interview") ->
  reachable ok sample_lent.
Proof.
  intros Hu He Hs.
  exact (reach_checkout ok sample_clock [1] _ _ _ (connect seeded [] 0) _ _
           (reach_seed ok seeded [] 0%nat seeded_is_seed) Hu He Hs
           sample_lent_run).
Defined.

Lemma sample_lent_ids : NoDup (map id (rows sample_lent)).
Proof.
  replace (map id (rows sample_lent)) with (map Z.of_nat (seq 1 120))
    by (vm_compute; reflexivity).
  apply Injective_map_NoDup; [|apply seq_NoDup].
  intros x y. apply Nat2Z.inj.
Defined.

Lemma small_is_sqlite_integer i :
  (- 2 ^ 63 <=? i) && (i <? 2 ^ 63) = true -> sqlite_integer i.
Proof.
  intros H. apply andb_true_iff in H. destruct H as [H1 H2].
  split; [apply Z.leb_le, H1 | apply Z.ltb_lt, H2].
Defined.

Lemma checkout_all_or_nothing_witness :
  quiet sample_lent /\
  bindable [2; 1] /\
  (exists c, In c (rows sample_lent) /\ In (id c) [2; 1] /\
             status c = CHECKED_OUT) /\
  checkout_cards sample_clock [2; 1] (Some "Bob") (Some "CamB") None
    sample_lent
  = (Returned (false, "以下のカードは現在貸出できません: 1"), sample_lent).
Proof.
  assert (Hb : bindable [2; 1]).
  { split; [|simpl; lia].
    repeat constructor; apply small_is_sqlite_integer; reflexivity. }
  assert (H : exists c, In c (rows sample_lent) /\ In (id c) [2; 1] /\
                        status c = CHECKED_OUT).
  { exists sample_card. split; [exact sample_card_lent|].
    split; [right; left; reflexivity | reflexivity]. }
  split; [exact sample_lent_quiet|]. split; [exact Hb|]. split; [exact H|].
  destruct (checkout_all_or_nothing sample_clock [2; 1] (Some "Bob")
              (Some "CamB") None sample_lent sample_lent_quiet Hb H)
    as [names [Heq [Hn _]]].
  assert (E : map (fun c => str (id c))
                (filter (fun c => existsb (Z.eqb (id c)) [2; 1] &&
                                  negb (status c =? AVAILABLE)%string)
                        (rows sample_lent)) = ["1"%string])
    by (vm_compute; reflexivity).
  rewrite E in Hn. rewrite Hn in Heq. exact Heq.
Defined.

Lemma return_card_witness :
  quiet sample_lent /\ NoDup (map id (rows sample_lent)) /\
  sqlite_integer 1 /\
  (exists c, In c (rows sample_lent) /\ id c = 1 /\ status c = CHECKED_OUT) /\
  exists w',
    return_card 1 sample_lent = (Returned (true, "返却が完了しました"), w') /\
    return_card 1 w' = (Returned (false, "このカードは返却できません"), w').
Proof.
  assert (Hone : sqlite_integer 1)
    by (apply small_is_sqlite_integer; reflexivity).
  assert (H : exists c, In c (rows sample_lent) /\ id c = 1 /\
                        status c = CHECKED_OUT).
  { exists sample_card. split; [exact sample_card_lent|]. split; reflexivity. }
  split; [exact sample_lent_quiet|]. split; [exact sample_lent_ids|].
  split; [exact Hone|]. split; [exact H|].
  destruct (return_card_exactly_when_checked_out 1 sample_lent
              sample_lent_quiet sample_lent_ids Hone) as [Hyes _].
  destruct (Hyes H) as [w' [H1 [_ [_ [_ [_ H2]]]]]].
  exists w'. split; assumption.
Defined.

Lemma checkout_then_listed_witness :
  quiet (connect seeded [] 0) /\
  In (mkAvailableRow 1 "SD1-1" "32G")
     (get_available_cards_by_case SD1 (rows (connect seeded [] 0))) /\
  (exists t,
     In (mkCheckedOutRow 1 "SD1-1" "32G" (Some "Alice") (Some "CamA")
           (Some "Interview") (Some t))
        (get_checked_out_cards_by_case SD1 (rows sample_lent))) /\
  (forall r, In r (get_available_cards_by_case SD1 (rows sample_lent)) ->
             av_id r <> 1).
Proof.
  assert (Hq : quiet (connect seeded [] 0)) by (split; reflexivity).
  assert (Hav : In (mkAvailableRow 1 "SD1-1" "32G")
                   (get_available_cards_by_case SD1
                      (rows (connect seeded [] 0))))
    by (vm_compute; left; reflexivity).
  split; [exact Hq|]. split; [exact Hav|].
  exact (checkout_then_listed sample_clock [1] _ _ _ _ _ _ SD1 1 "SD1-1" "32G"
           Hq Hav (or_introl eq_refl) sample_lent_run).
Defined.

Lemma lifecycle_frame_witness :
  quiet (connect seeded [] 0) /\
  map key_columns (rows sample_lent)
    = map key_columns (rows (connect seeded [] 0)) /\
  map key_columns (rows sample_back)
    = map key_columns (rows (connect seeded [] 0)) /\
  (forall c, In c (rows sample_back) -> id c = 1 ->
     status c = AVAILABLE /\ all_null c).
Proof.
  assert (Hq : quiet (connect seeded [] 0)) by (split; reflexivity).
  destruct (lifecycle_frame sample_clock [1] _ _ _ 1 _ _ _ _ _
              Hq (or_introl eq_refl) sample_lent_run sample_back_run)
    as [H1 [H2 [_ [_ H3]]]].
  split; [exact Hq|]. split; [exact H1|]. split; [exact H2 | exact H3].
Defined.

Lemma listings_partition_witness :
  Permutation
    (map av_card_number (get_available_cards_by_case SD1 (rows sample_lent)) ++
     map co_card_number (get_checked_out_cards_by_case SD1 (rows sample_lent)))
    (map cs_card_number (get_cards_by_case SD1 (rows sample_lent))).
Proof.
  exact (proj1 (listings_partition_by_status sample_lent
                  (sample_lent_reachable (fun _ => True) I I I) SD1)).
Defined.

Lemma checkout_fields_witness :
  all_non_null sample_card <-> status sample_card = CHECKED_OUT.
Proof.
  apply (checkout_fields_iff_checked_out sample_lent).
  - apply sample_lent_reachable; discriminate.
  - exact sample_card_lent.
Defined.

Lemma exception_rolls_back_witness :
  saved sample_locked = None /\
  bindable [1] /\ sqlite_integer 1 /\
  exists w2,
    checkout_cards sample_clock [1] (Some "Alice") (Some "CamA") None
      sample_locked
    = (Returned (false, "エラーが発生しました: database is locked"), w2) /\
    rows w2 = rows sample_locked /\ saved w2 = None.
Proof.
  assert (Hone : sqlite_integer 1)
    by (apply small_is_sqlite_integer; reflexivity).
  assert (Hb : bindable [1]).
  { split; [|simpl; lia]. constructor; [exact Hone | constructor]. }
  split; [reflexivity|]. split; [exact Hb|]. split; [exact Hone|].
  destruct (exception_rolls_back sample_clock [1] (Some "Alice") (Some "CamA")
              None 1 sample_locked eq_refl Hb Hone) as [H _].
  eexists. eapply H; vm_compute; reflexivity.
Defined.

(** ** The container menu *)

Lemma in_seen x (seen : list string) :
  existsb (String.eqb x) seen = true <-> In x seen.
Proof.
  rewrite existsb_exists. split.
  - intros [y [Hy E]]. apply String.eqb_eq in E. congruence.
  - intros H. exists x. split; [exact H | apply String.eqb_refl].
Qed.

Lemma first_occurrences_spec l : forall seen,
  NoDup (first_occurrences seen l) /\
  forall x, In x (first_occurrences seen l) <-> In x l /\ ~ In x seen.
Proof.
  induction l as [|y l IH]; intros seen; simpl.
  - split; [constructor | intros x; tauto].
  - destruct (existsb (String.eqb y) seen) eqn:E.
    + apply in_seen in E. destruct (IH seen) as [Hnd Hin].
      split; [exact Hnd|]. intros x. rewrite Hin. split.
      * tauto.
      * intros [[<- | H] Hs]; intuition congruence.
    + assert (Hy : ~ In y seen).
      { intros H. apply in_seen in H. congruence. }
      destruct (IH (y :: seen)) as [Hnd Hin]. split.
      * constructor; [|exact Hnd]. rewrite Hin. simpl. tauto.
      * intros x. simpl. rewrite Hin. simpl.
        destruct (string_dec y x) as [<- | Hne]; intuition congruence.
Qed.

Lemma get_case_numbers_spec db :
  NoDup (get_case_numbers db) /\
  forall x, In x (get_case_numbers db) <->
            exists c, In c db /\ case_number c = x.
Proof.
  unfold get_case_numbers.
  destruct (first_occurrences_spec (map case_number db) []) as [Hnd Hin].
  split; [exact Hnd|]. intros x. rewrite Hin, in_map_iff. simpl. split.
  - intros [[c [E Hc]] _]. exists c. auto.
  - intros [c [Hc E]]. split; [exists c; auto | tauto].
Qed.

(** X1. The menu of containers has no duplicate, and a name is on it
    exactly when some row of the table carries it. *)
Theorem case_numbers_are_the_distinct_containers :
  forall db,
    NoDup (get_case_numbers db) /\
    forall x, In x (get_case_numbers db) <->
              exists c, In c db /\ case_number c = x.
Proof.
  intros db. unfold get_case_numbers.
  destruct (first_occurrences_spec (map case_number db) []) as [Hnd Hin].
  split; [exact Hnd|]. intros x. rewrite Hin, in_map_iff. simpl. split.
  - intros [[c [E Hc]] _]. exists c. auto.
  - intros [c [Hc E]]. split; [exists c; auto | tauto].
Qed.

Lemma reachable_menu ok w :
  reachable ok w -> get_case_numbers (rows w) = [SD1; SD2; microSD].
Proof.
  intros Hw. destruct (reachable_shape _ w Hw) as [Hk _].
  unfold get_case_numbers.
  replace (map case_number (rows w))
    with (map (fun k => snd k) (map key_columns (rows w)))
    by (rewrite map_map; reflexivity).
  rewrite Hk. vm_compute. reflexivity.
Qed.

(** X2. Whatever has been checked out or returned, and whatever faults
    were met, the table has the 120 seeded rows, in their order, with their
    ids, labels, indices, capacities and containers, and the menu offers
    the three containers. *)
Theorem rows_are_the_seeded_cards :
  forall w, reachable (fun _ => True) w ->
    map key_columns (rows w) = map key_columns seeded /\
    List.length (rows w) = 120%nat /\
    get_case_numbers (rows w) = [SD1; SD2; microSD].
Proof.
  intros w Hw. destruct (reachable_shape _ w Hw) as [Hk _].
  split; [exact Hk|]. split.
  - rewrite <- (length_map key_columns), Hk, length_map.
    vm_compute. reflexivity.
  - exact (reachable_menu _ w Hw).
Qed.

Lemma rows_are_the_seeded_cards_witness :
  map key_columns (rows sample_lent) = map key_columns seeded /\
  List.length (rows sample_lent) = 120%nat /\
  get_case_numbers (rows sample_lent) = [SD1; SD2; microSD].
Proof.
  exact (rows_are_the_seeded_cards sample_lent
           (sample_lent_reachable (fun _ => True) I I I)).
Defined.

(** ** The stock list keeps its order *)

Lemma key_columns_index c d :
  key_columns c = key_columns d -> card_index c = card_index d.
Proof. unfold key_columns. intros H. injection H. auto. Qed.

Lemma key_columns_case c d :
  key_columns c = key_columns d -> case_number c = case_number d.
Proof. unfold key_columns. intros H. injection H. auto. Qed.

Lemma cons_eq {A} (a b : A) (l l' : list A) :
  a :: l = b :: l' -> a = b /\ l = l'.
Proof. intros H. injection H. auto. Qed.

Lemma insert_by_index_keys c d l : forall l',
  key_columns c = key_columns d ->
  map key_columns l = map key_columns l' ->
  map key_columns (insert_by_index c l) = map key_columns (insert_by_index d l').
Proof.
  induction l as [|a l IH]; intros [|b l'] Hcd Hl; cbn [map] in Hl;
    try discriminate.
  - cbn [insert_by_index map]. rewrite Hcd. reflexivity.
  - apply cons_eq in Hl. destruct Hl as [Hab Hl]. cbn [insert_by_index].
    rewrite (key_columns_index c d Hcd), (key_columns_index a b Hab).
    destruct (card_index d <=? card_index b); cbn [map].
    + rewrite Hcd, Hab, Hl. reflexivity.
    + rewrite Hab, (IH l' Hcd Hl). reflexivity.
Qed.

Lemma order_by_card_index_keys l : forall l',
  map key_columns l = map key_columns l' ->
  map key_columns (order_by_card_index l)
    = map key_columns (order_by_card_index l').
Proof.
  induction l as [|a l IH]; intros [|b l'] Hl; cbn [map] in Hl;
    try discriminate.
  - reflexivity.
  - apply cons_eq in Hl. destruct Hl as [Hab Hl].
    unfold order_by_card_index. cbn [fold_right].
    apply insert_by_index_keys; [exact Hab | apply IH, Hl].
Qed.

Lemma filter_keys (p : Card -> bool) l : forall l',
  (forall c d, key_columns c = key_columns d -> p c = p d) ->
  map key_columns l = map key_columns l' ->
  map key_columns (filter p l) = map key_columns (filter p l').
Proof.
  induction l as [|a l IH]; intros [|b l'] Hp Hl; cbn [map] in Hl;
    try discriminate.
  - reflexivity.
  - apply cons_eq in Hl. destruct Hl as [Hab Hl]. cbn [filter].
    rewrite (Hp a b Hab).
    destruct (p b); cbn [map]; [rewrite Hab|]; rewrite (IH l' Hp Hl);
      reflexivity.
Qed.

Lemma case_listing_labels case db db' :
  map key_columns db = map key_columns db' ->
  map cs_card_number (get_cards_by_case case db)
    = map cs_card_number (get_cards_by_case case db').
Proof.
  intros H. unfold get_cards_by_case. rewrite !map_map. simpl.
  assert (E : forall l, map card_number l =
                        map (fun k => snd (fst (fst (fst k)))) (map key_columns l)).
  { intros l. rewrite map_map. reflexivity. }
  rewrite !E. f_equal. apply order_by_card_index_keys, filter_keys; [|exact H].
  intros c d Hcd. rewrite (key_columns_case c d Hcd). reflexivity.
Qed.

(** X3. In every connection reached from the seed the stock list of a
    container shows its forty labels in index order, 1 to 40, whatever the
    cards' statuses; a name that is no container has an empty list. *)
Theorem stock_list_is_in_index_order :
  forall w, reachable (fun _ => True) w ->
    map cs_card_number (get_cards_by_case SD1 (rows w))
      = map (fun n => ("SD1-" ++ str n)%string) range_1_41 /\
    map cs_card_number (get_cards_by_case SD2 (rows w))
      = map (fun n => ("SD2-" ++ str n)%string) range_1_41 /\
    map cs_card_number (get_cards_by_case microSD (rows w))
      = map (fun n => ("microSD-" ++ str n)%string) range_1_41 /\
    forall case, ~ In case [SD1; SD2; microSD] ->
                 get_cards_by_case case (rows w) = [].
Proof.
  intros w Hw. destruct (reachable_shape _ w Hw) as [Hk _].
  repeat split.
  - rewrite (case_listing_labels SD1 _ _ Hk). vm_compute. reflexivity.
  - rewrite (case_listing_labels SD2 _ _ Hk). vm_compute. reflexivity.
  - rewrite (case_listing_labels microSD _ _ Hk). vm_compute. reflexivity.
  - intros case Hcase.
    destruct (get_cards_by_case case (rows w)) as [|r l] eqn:E; [reflexivity|].
    exfalso. assert (Hr : In r (get_cards_by_case case (rows w)))
      by (rewrite E; left; reflexivity).
    apply in_cards_by_case in Hr. destruct Hr as [c [Hc [Hcc _]]].
    apply Hcase. rewrite <- Hcc.
    assert (Hm : In (case_number c) (get_case_numbers (rows w))).
    { apply get_case_numbers_spec. exists c. auto. }
    rewrite (reachable_menu _ w Hw) in Hm. exact Hm.
Qed.

Lemma stock_list_witness :
  map cs_card_number (get_cards_by_case SD2 (rows sample_lent))
    = map (fun n => ("SD2-" ++ str n)%string) range_1_41.
Proof.
  exact (proj1 (proj2 (stock_list_is_in_index_order sample_lent
                         (sample_lent_reachable (fun _ => True) I I I)))).
Defined.

(** ** Checkout that succeeds *)

Lemma checkout_succeeds_when_available card_ids w :
  quiet w ->
  (forall c, In c (rows w) -> In (id c) card_ids -> status c = AVAILABLE) ->
  unavailable_cards (select_id_status card_ids (rows w)) = [].
Proof.
  intros Hw Hall.
  destruct (unavailable_cards (select_id_status card_ids (rows w)))
    as [|x l] eqn:E; [reflexivity|].
  assert (H : In x (unavailable_cards (select_id_status card_ids (rows w))))
    by (rewrite E; left; reflexivity).
  apply in_unavailable_cards in H. destruct H as [c [Hc [Hin [Hst _]]]].
  destruct (Hst (Hall c Hc Hin)).
Qed.

(** X4. With no store fault, a batch of ids that [sqlite3] can bind, in
    which every id that has a row has an AVAILABLE row, is checked out with
    success and the message ['貸出が完了しました'].  Each row of the batch is
    then CHECKED_OUT, with a timestamp and the borrower, equipment and note
    of the call, and with its id, label, index, capacity and container as
    before; every other row stays as it is; no row appears or disappears. *)
Theorem checkout_succeeds_on_available_batch :
  forall now card_ids u e s w,
    quiet w ->
    bindable card_ids ->
    (forall c, In c (rows w) -> In (id c) card_ids -> status c = AVAILABLE) ->
    exists w',
      checkout_cards now card_ids u e s w
        = (Returned (true, "貸出が完了しました"), w') /\
      saved w' = None /\
      List.length (rows w') = List.length (rows w) /\
      (forall c, In c (rows w) -> ~ In (id c) card_ids -> In c (rows w')) /\
      (forall c, In c (rows w) -> In (id c) card_ids ->
         exists c', In c' (rows w') /\
           id c' = id c /\ card_number c' = card_number c /\
           card_index c' = card_index c /\ capacity c' = capacity c /\
           case_number c' = case_number c /\
           status c' = CHECKED_OUT /\ (exists t, checkout_date c' = Some t) /\
           user_name c' = u /\ equipment c' = e /\ shoot_content c' = s) /\
      (forall c', In c' (rows w') ->
         (~ In (id c') card_ids /\ In c' (rows w)) \/
         (In (id c') card_ids /\
          status c' = CHECKED_OUT /\ (exists t, checkout_date c' = Some t) /\
          user_name c' = u /\ equipment c' = e /\ shoot_content c' = s /\
          exists c, In c (rows w) /\
            id c' = id c /\ card_number c' = card_number c /\
            card_index c' = card_index c /\ capacity c' = capacity c /\
            case_number c' = case_number c)).
Proof.
  intros now card_ids u e s w Hw _ Hall.
  eexists. split.
  { rewrite checkout_cards_quiet by exact Hw.
    rewrite (checkout_succeeds_when_available card_ids w Hw Hall).
    rewrite stamp_all_map. reflexivity. }
  simpl. split; [reflexivity|]. split; [apply length_map|]. split; [|split].
  - intros c Hc Hout.
    destruct (stamp_card_spec now u e s card_ids (clock w) c)
      as [[Hin _] | [_ Ht]]; [contradiction|].
    rewrite <- Ht. apply in_map, Hc.
  - intros c Hc Hin.
    destruct (stamp_card_spec now u e s card_ids (clock w) c)
      as [[_ [t Ht]] | [Hout _]]; [|contradiction].
    exists (checked_out t u e s c). split.
    + rewrite <- Ht. apply in_map, Hc.
    + simpl. repeat split; auto. exists t. reflexivity.
  - intros c' Hc'. apply in_map_iff in Hc'. destruct Hc' as [c [E Hc]].
    destruct (stamp_card_spec now u e s card_ids (clock w) c)
      as [[Hin [t Ht]] | [Hout Ht]]; rewrite Ht in E; subst c'.
    + right. simpl. split; [exact Hin|]. split; [reflexivity|].
      split; [exists t; reflexivity|]. repeat split; auto.
      exists c. repeat split; auto.
    + left. auto.
Qed.

Lemma rows_connect db faults k : rows (connect db faults k) = db.
Proof. reflexivity. Qed.

Lemma checkout_succeeds_witness :
  quiet (connect seeded [] 0) /\
  bindable [3; 200] /\
  exists w',
    checkout_cards sample_clock [3; 200] (Some "Alice") None None
      (connect seeded [] 0)
    = (Returned (true, "貸出が完了しました"), w') /\ saved w' = None.
Proof.
  assert (Hq : quiet (connect seeded [] 0)) by (split; reflexivity).
  assert (Hb : bindable [3; 200]).
  { split; [|simpl; lia].
    repeat constructor; apply small_is_sqlite_integer; reflexivity. }
  assert (Hall : forall c, In c (rows (connect seeded [] 0)) ->
                   In (id c) [3; 200] -> status c = AVAILABLE).
  { intros c Hc _. rewrite rows_connect in Hc. pose proof seeded_fresh as H.
    rewrite Forall_forall in H. exact (proj1 (H c Hc)). }
  split; [exact Hq|]. split; [exact Hb|].
  destruct (checkout_succeeds_on_available_batch sample_clock [3; 200]
              (Some "Alice") None None _ Hq Hb Hall) as [w' [H1 [H2 _]]].
  exists w'. split; assumption.
Defined.

(** The clock reading a row of the batch gets when the batch has no
    repeated id. *)
Lemma stamp_card_nth now u e s card_ids : forall k n c,
  NoDup card_ids ->
  nth_error card_ids n = Some (id c) ->
  stamp_card now u e s card_ids k c = checked_out (now (k + n)%nat) u e s c.
Proof.
  induction card_ids as [|i rest IH]; intros k n c Hnd Hn.
  - destruct n; discriminate Hn.
  - inversion Hnd as [|? ? Hnotin Hnd']; subst. simpl.
    destruct n as [|n]; simpl in Hn.
    + injection Hn as ->. rewrite Z.eqb_refl, Nat.add_0_r.
      destruct (stamp_card_spec now u e s rest (S k)
                  (checked_out (now k) u e s c)) as [[Hin _] | [_ Ht]].
      * simpl in Hin. contradiction.
      * exact Ht.
    + assert (Hne : id c <> i).
      { intros E. apply Hnotin. rewrite <- E. eapply nth_error_In, Hn. }
      destruct (Z.eqb_spec (id c) i) as [E|_]; [contradiction|].
      rewrite (IH (S k) n c Hnd' Hn). rewrite Nat.add_succ_r. reflexivity.
Qed.

(** X5. The clock is read once per card, in batch order: when a batch
    without repeated ids is checked out, the row of its [n]-th id carries
    the [n]-th reading made from the start of the call. *)
Theorem each_card_has_its_own_timestamp :
  forall now card_ids u e s w msg w' n c',
    quiet w ->
    NoDup card_ids ->
    checkout_cards now card_ids u e s w = (Returned (true, msg), w') ->
    In c' (rows w') ->
    nth_error card_ids n = Some (id c') ->
    checkout_date c' = Some (now (clock w + n)%nat).
Proof.
  intros now card_ids u e s w msg w' n c' Hw Hnd Hcall Hc' Hn.
  destruct (checkout_success_inv _ _ _ _ _ _ _ _ Hw Hcall) as [_ ->].
  simpl in Hc'. apply in_map_iff in Hc'. destruct Hc' as [c [E Hc]].
  assert (Hid : id c' = id c).
  { rewrite <- E.
    destruct (stamp_card_spec now u e s card_ids (clock w) c)
      as [[_ [t Ht]] | [_ Ht]]; rewrite Ht; reflexivity. }
  rewrite Hid in Hn. rewrite <- E.
  rewrite (stamp_card_nth now u e s card_ids (clock w) n c Hnd Hn).
  reflexivity.
Qed.

Lemma each_card_timestamp_witness :
  quiet (connect seeded [] 0) /\ NoDup [5; 7] /\
  In sample_seventh (rows sample_pair) /\
  checkout_date sample_seventh = Some (sample_clock (clock (connect seeded [] 0) + 1)).
Proof.
  assert (Hq : quiet (connect seeded [] 0)) by (split; reflexivity).
  assert (Hnd : NoDup [5; 7]).
  { constructor; [simpl; intros [H|[]]; discriminate H|].
    constructor; [simpl; tauto | constructor]. }
  assert (Hrun : checkout_cards sample_clock [5; 7] (Some "Bob") (Some "CamB")
                   (Some "Match") (connect seeded [] 0)
                 = (Returned (true, checkout_success), sample_pair))
    by (vm_compute; reflexivity).
  assert (Hin : In sample_seventh (rows sample_pair))
    by (vm_compute; do 6 right; left; reflexivity).
  split; [exact Hq|]. split; [exact Hnd|]. split; [exact Hin|].
  exact (each_card_has_its_own_timestamp sample_clock [5; 7] _ _ _ _ _ _ 1%nat
           sample_seventh Hq Hnd Hrun Hin eq_refl).
Defined.

(** ** Checkout, then return, on a reachable table *)

Lemma reachable_idle ok w : reachable ok w -> Forall idle_row (rows w).
Proof.
  intros Hw. apply (reachable_holds (Forall idle_row) ok); auto.
  - intros db Hdb. rewrite (seed_unique db Hdb).
    eapply Forall_impl; [|apply seeded_fresh]. intros c [_ Hc] _. exact Hc.
  - intros t u e s card_id db _ _ _. apply update_where_id_Forall.
    intros c Hst. simpl in Hst. destruct (status_literals_differ (eq_sym Hst)).
  - intros card_id db. apply update_where_id_Forall.
    intros c _. unfold all_null. simpl. auto.
Qed.

Lemma returned_idle c :
  status c = AVAILABLE -> all_null c -> returned c = c.
Proof.
  destruct c as [i l x st cap d un eq cs sc]. unfold all_null. simpl.
  intros -> [-> [-> [-> ->]]]. reflexivity.
Qed.

(** X6. On a table reached from the seed, checking a single card out and
    returning it, both with success and without store fault, gives back the
    table as it was, row for row. *)
Theorem checkout_then_return_restores_table :
  forall now card_id u e s w m1 w1 m2 w2,
    reachable (fun _ => True) w ->
    quiet w ->
    checkout_cards now [card_id] u e s w = (Returned (true, m1), w1) ->
    return_card card_id w1 = (Returned (true, m2), w2) ->
    rows w2 = rows w.
Proof.
  intros now card_id u e s w m1 w1 m2 w2 Hreach Hw Hout Hback.
  pose proof (reachable_idle _ w Hreach) as Hidle.
  rewrite Forall_forall in Hidle.
  destruct (checkout_success_inv _ _ _ _ _ _ _ _ Hw Hout) as [Hnone ->].
  rewrite return_card_quiet in Hback by (split; reflexivity).
  simpl in Hback.
  destruct (select_status card_id _) as [st|]; [|discriminate].
  destruct (negb (st =? CHECKED_OUT)%string); [discriminate|].
  injection Hback as _ <-. simpl.
  unfold update_where_id. rewrite map_map.
  rewrite <- (map_id (rows w)) at 2. apply map_ext_in. intros c Hc.
  simpl. destruct (Z.eqb_spec (id c) card_id) as [E|E]; simpl.
  - destruct (Z.eqb_spec (id c) card_id) as [_|E']; [|contradiction].
    assert (Hst : status c = AVAILABLE).
    { destruct (String.eqb_spec (status c) AVAILABLE) as [H|H]; [exact H|].
      exfalso.
      assert (Hu : In (str (id c))
                     (unavailable_cards (select_id_status [card_id] (rows w)))).
      { apply in_unavailable_cards. exists c. repeat split; auto.
        left. auto. }
      rewrite Hnone in Hu. exact Hu. }
    apply (returned_idle c Hst (Hidle c Hc Hst)).
  - destruct (Z.eqb_spec (id c) card_id) as [E'|_]; [contradiction|].
    reflexivity.
Qed.

Lemma checkout_then_return_witness :
  quiet (connect seeded [] 0) /\ rows sample_back = rows (connect seeded [] 0).
Proof.
  assert (Hq : quiet (connect seeded [] 0)) by (split; reflexivity).
  split; [exact Hq|].
  exact (checkout_then_return_restores_table sample_clock 1 _ _ _ _ _ _ _ _
           (reach_seed _ seeded [] 0%nat seeded_is_seed) Hq
           sample_lent_run sample_back_run).
Defined.

(** ** Whatever goes wrong, a refusal changes nothing *)

Section Outcome.

Variable db0 : Table.

Lemma untouched_ROLLBACK_done :
  hoare (untouched db0) ROLLBACK
        (fun _ w => rows w = db0 /\ saved w = None) (fun _ => untouched db0).
Proof. apply untouched_execute. intros w Hw. open_conn; conn_facts. Qed.

Lemma untouched_COMMIT_done :
  hoare (untouched db0) COMMIT (fun _ w => saved w = None)
        (fun _ => untouched db0).
Proof. apply untouched_execute. intros w Hw. open_conn; conn_facts. Qed.

Lemma refusal_settled msg :
  hoare (untouched db0) (ROLLBACK ;; ret (false, msg)) (settled db0)
        (fun _ => untouched db0).
Proof.
  eapply hoare_bind; [apply untouched_ROLLBACK_done | intros _v].
  apply hoare_ret. intros w [Hr Hs]. split; auto.
Qed.

Lemma checkout_body_settled now card_ids u e s :
  hoare (untouched db0) (checkout_body now card_ids u e s) (settled db0)
        (fun _ => untouched db0).
Proof.
  unfold checkout_body.
  eapply hoare_bind; [apply untouched_BEGIN | intros _u].
  eapply hoare_bind; [apply untouched_SELECT | intros statuses].
  cbv zeta. destruct (unavailable_cards statuses).
  - eapply hoare_bind.
    + apply hoare_for_each. intros card_id.
      eapply hoare_bind;
        [apply hoare_datetime_now, untouched_stable | intros t].
      apply untouched_UPDATE.
    + intros _v. eapply hoare_bind; [apply untouched_COMMIT_done | intros _w].
      apply hoare_ret. intros w Hw. split; [exact Hw | discriminate].
  - apply refusal_settled.
Qed.

Lemma return_body_settled card_id :
  hoare (untouched db0) (return_body card_id) (settled db0) (fun _ => untouched db0).
Proof.
  unfold return_body.
  eapply hoare_bind; [apply untouched_BEGIN | intros _u].
  eapply hoare_bind; [apply untouched_SELECT | intros [st|]];
    [|apply refusal_settled].
  destruct (negb (st =? CHECKED_OUT)%string); [apply refusal_settled|].
  eapply hoare_bind; [apply untouched_UPDATE | intros _v].
  eapply hoare_bind; [apply untouched_COMMIT_done | intros _w].
  apply hoare_ret. intros w Hw. split; [exact Hw | discriminate].
Qed.

Lemma handler_settled ex :
  hoare (untouched db0) (rollback_and_report ex) (settled db0) (fun _ _ => True).
Proof.
  unfold rollback_and_report.
  eapply hoare_bind.
  - eapply hoare_weaken; [apply untouched_ROLLBACK_done | | | ]; auto.
    intros a w H. exact H.
  - intros _v. apply hoare_ret. intros w [Hr Hs]. split; auto.
Qed.

Lemma methods_settled now card_ids u e s card_id w :
  rows w = db0 -> saved w = None ->
  (forall v w', checkout_cards now card_ids u e s w = (Returned v, w') ->
                saved w' = None /\ (fst v = false -> rows w' = db0)) /\
  (forall v w', return_card card_id w = (Returned v, w') ->
                saved w' = None /\ (fst v = false -> rows w' = db0)).
Proof.
  intros Hrows Hidle.
  assert (Hsafe : untouched db0 w)
    by (unfold untouched; rewrite Hidle; exact Hrows).
  split; intros v w' Hcall.
  - pose proof (hoare_try _ _ _ _ _ (fun _ _ => True)
                  (checkout_body_settled now card_ids u e s) handler_settled
                  w Hsafe) as H.
    unfold checkout_cards in Hcall. rewrite Hcall in H. exact H.
  - pose proof (hoare_try _ _ _ _ _ (fun _ _ => True)
                  (return_body_settled card_id) handler_settled w Hsafe) as H.
    unfold return_card in Hcall. rewrite Hcall in H. exact H.
Qed.

End Outcome.

(** X7. Under any schedule of store faults, a call made on a connection
    with no transaction open that returns at all leaves no transaction
    open, and one that returns [False], for whatever reason, leaves every
    row as it was. *)
Theorem refusal_changes_nothing :
  forall now card_ids u e s card_id w,
    saved w = None ->
    (forall b msg w',
       checkout_cards now card_ids u e s w = (Returned (b, msg), w') ->
       saved w' = None /\ (b = false -> rows w' = rows w)) /\
    (forall b msg w',
       return_card card_id w = (Returned (b, msg), w') ->
       saved w' = None /\ (b = false -> rows w' = rows w)).
Proof.
  intros now card_ids u e s card_id w Hidle.
  destruct (methods_settled (rows w) now card_ids u e s card_id w eq_refl Hidle)
    as [H1 H2].
  split; intros b msg w' Hcall; [apply (H1 _ _ Hcall) | apply (H2 _ _ Hcall)].
Qed.

Lemma refusal_changes_nothing_witness :
  saved sample_locked = None /\
  rows (snd (checkout_cards sample_clock [1] (Some "Alice") (Some "CamA") None
               sample_locked))
    = rows sample_locked.
Proof.
  split; [reflexivity|].
  destruct (refusal_changes_nothing sample_clock [1] (Some "Alice")
              (Some "CamA") None 1 sample_locked eq_refl) as [H _].
  refine (proj2 (H false (generic_failure "database is locked") _ _) eq_refl).
  vm_compute. reflexivity.
Defined.

(** ** The check boxes *)

Lemma mem_spec i l : mem i l = true <-> In i l.
Proof. apply in_id_list. Qed.

Lemma remove_first_spec i l :
  NoDup l ->
  NoDup (remove_first i l) /\
  forall j, In j (remove_first i l) <-> In j l /\ j <> i.
Proof.
  induction l as [|a l IH]; simpl; intros Hnd.
  - split; [constructor | intros j; tauto].
  - inversion Hnd as [|? ? Hnotin Hnd']; subst.
    destruct (IH Hnd') as [IHnd IHin].
    destruct (Z.eqb_spec a i) as [E|E].
    + subst a. split; [exact Hnd'|]. intros j. split.
      * intros Hj. split; [auto|]. intros ->. contradiction.
      * intros [[H|H] Hne]; [congruence | exact H].
    + split.
      * constructor; [|exact IHnd]. rewrite IHin. tauto.
      * intros j. simpl. rewrite IHin. split.
        -- intros [H|[H Hne]]; [subst j|]; auto.
        -- intros [[H|H] Hne]; auto.
Qed.

Lemma NoDup_snoc (i : Z) l : NoDup l -> ~ In i l -> NoDup (l ++ [i]).
Proof.
  intros Hnd Hi. apply NoDup_app; [exact Hnd | |].
  - constructor; [simpl; tauto | constructor].
  - intros a Ha [<- | []]. contradiction.
Qed.

(** One check box. *)
Lemma tick_spec (b : bool) i selected :
  NoDup selected ->
  let selected' :=
    if b && negb (mem i selected) then selected ++ [i]
    else if negb b && mem i selected then remove_first i selected
    else selected in
  NoDup selected' /\
  forall j, In j selected' <-> (j = i /\ b = true) \/ (j <> i /\ In j selected).
Proof.
  intros Hnd. cbv zeta.
  destruct (mem i selected) eqn:Hm.
  - apply mem_spec in Hm. destruct b; simpl.
    + split; [exact Hnd|]. intros j.
      destruct (Z.eq_dec j i) as [->|Hne]; tauto.
    + destruct (remove_first_spec i selected Hnd) as [H1 H2].
      split; [exact H1|]. intros j. rewrite H2.
      split; [tauto|]. intros [[_ H]|H]; [discriminate | tauto].
  - assert (Hi : ~ In i selected).
    { intros H. apply mem_spec in H. congruence. }
    destruct b; simpl.
    + split; [apply NoDup_snoc; assumption|]. intros j.
      rewrite in_app_iff. simpl.
      destruct (Z.eq_dec j i) as [->|Hne]; [tauto|].
      split; [intros [H|[H|[]]]; [tauto | congruence] | tauto].
    + split; [exact Hnd|]. intros j.
      split; [|intros [[_ H]|H]; [discriminate | tauto]].
      intros H. right. split; [|exact H]. intros ->. contradiction.
Qed.

Lemma sync_selection_spec ui listing : forall selected,
  NoDup selected ->
  NoDup (sync_selection ui listing selected) /\
  forall i,
    In i (sync_selection ui listing selected) <->
    (In i (map av_id listing) /\ checkbox ui i = true) \/
    (~ In i (map av_id listing) /\ In i selected).
Proof.
  induction listing as [|row rest IH]; intros selected Hnd; simpl.
  - split; [exact Hnd | intros i; tauto].
  - destruct (tick_spec (checkbox ui (av_id row)) (av_id row) selected Hnd)
      as [Hnd' Hin'].
    cbv zeta in Hnd', Hin'.
    destruct (IH _ Hnd') as [H1 H2]. split; [exact H1|].
    intros i. rewrite H2, Hin'.
    destruct (in_dec Z.eq_dec i (map av_id rest)) as [Hr|Hr];
      destruct (Z.eq_dec i (av_id row)) as [->|Hne];
      intuition congruence.
Qed.

(** X8. After the loop over the check boxes, a card of the listing is in
    the selection exactly when its box is ticked; an id that is not in the
    listing (a card of a container chosen earlier, say) is in the selection
    exactly when it was before; and a selection without repeated ids stays
    without. *)
Theorem selection_follows_the_check_boxes :
  forall ui listing selected,
    NoDup selected ->
    NoDup (sync_selection ui listing selected) /\
    (forall i, In i (map av_id listing) ->
       (In i (sync_selection ui listing selected) <-> checkbox ui i = true)) /\
    (forall i, ~ In i (map av_id listing) ->
       (In i (sync_selection ui listing selected) <-> In i selected)).
Proof.
  intros ui listing selected Hnd.
  destruct (sync_selection_spec ui listing selected Hnd) as [H1 H2].
  split; [exact H1|]. split; intros i Hi; rewrite H2; tauto.
Qed.

(** ** A program logic for the screens *)

Lemma triple_done {A} (P : Screen -> Prop) (a : A) Q R :
  (forall st, P st -> Q a st) -> triple P (done a) Q R.
Proof. intros H st Hst. simpl. auto. Qed.

Lemma triple_bind {A B} P (m : Script A) (k : A -> Script B) Q Q' R :
  triple P m Q R -> (forall a, triple (Q a) (k a) Q' R) ->
  triple P (and_then m k) Q' R.
Proof.
  intros Hm Hk st Hst. unfold and_then. specialize (Hm st Hst).
  destruct (m st) as [[a| |e] st1]; [apply (Hk a st1 Hm) | exact Hm | exact Hm].
Qed.

Lemma triple_weaken {A} (P P' : Screen -> Prop) (m : Script A)
  (Q Q' : A -> Screen -> Prop) (R R' : Screen -> Prop) :
  triple P m Q R ->
  (forall st, P' st -> P st) ->
  (forall a st, Q a st -> Q' a st) ->
  (forall st, R st -> R' st) ->
  triple P' m Q' R'.
Proof.
  intros H HP HQ HR st Hst. specialize (H st (HP st Hst)).
  destruct (m st) as [[a| |e] st1]; auto.
Qed.

Lemma triple_when (b : bool) P (m : Script unit) (Q : unit -> Screen -> Prop) R :
  (b = true -> triple P m Q R) ->
  (b = false -> forall st, P st -> Q tt st) ->
  triple P (when b m) Q R.
Proof.
  intros Ht Hf. destruct b; simpl.
  - apply Ht. reflexivity.
  - apply triple_done. apply Hf. reflexivity.
Qed.

(** ** Tables the screens produce *)

Lemma insert_initial_data_total db :
  insert_initial_data db = Some (match db with [] => seeded | _ :: _ => db end).
Proof.
  destruct db as [|c db]; [exact seeded_is_seed|].
  apply insert_initial_data_nonempty.
Qed.

Lemma table_ok_seeded : table_ok seeded.
Proof.
  split; [|split].
  - eapply Forall_impl; [|apply seeded_fresh]. intros c Hc. right. exact Hc.
  - eapply Forall_impl; [|apply seeded_fresh]. intros c [Hc _] Hout.
    destruct status_literals_differ. congruence.
  - right. reflexivity.
Qed.

Lemma table_ok_keys db db' :
  map key_columns db' = map key_columns db ->
  db = [] \/ map key_columns db = map key_columns seeded ->
  db' = [] \/ map key_columns db' = map key_columns seeded.
Proof.
  intros Hk [-> | H].
  - left. destruct db'; [reflexivity | discriminate Hk].
  - right. congruence.
Qed.

Lemma table_ok_checked_out now u e s card_ids db k :
  u <> "" -> e <> "" ->
  table_ok db ->
  table_ok (stamp_all now (Some u) (Some e) (Some s) card_ids db k).
Proof.
  intros Hu He [Hrow [Hlent Hkeys]].
  assert (Hall : forall P : Card -> Prop,
             (forall t c, P (checked_out t (Some u) (Some e) (Some s) c)) ->
             Forall P db ->
             Forall P (stamp_all now (Some u) (Some e) (Some s) card_ids db k)).
  { intros P Hnew Hold. rewrite stamp_all_map. apply Forall_map.
    eapply Forall_impl; [|exact Hold]. simpl. intros c Hc.
    destruct (stamp_card_spec now (Some u) (Some e) (Some s) card_ids k c)
      as [[_ [t Ht]] | [_ Ht]]; rewrite Ht; auto. }
  split; [|split].
  - apply Hall; [|exact Hrow]. intros t c.
    apply row_ok_checked_out; discriminate.
  - apply Hall; [|exact Hlent]. intros t c _. exists u, e. simpl. auto.
  - eapply table_ok_keys; [apply stamp_all_keys | exact Hkeys].
Qed.

Lemma table_ok_returned card_id db :
  table_ok db -> table_ok (update_where_id card_id returned db).
Proof.
  intros [Hrow [Hlent Hkeys]]. split; [|split].
  - apply update_where_id_Forall; [apply row_ok_returned | exact Hrow].
  - apply update_where_id_Forall; [|exact Hlent].
    intros c Hout. simpl in Hout. destruct status_literals_differ. congruence.
  - eapply table_ok_keys; [|exact Hkeys].
    apply update_where_id_keys. reflexivity.
Qed.

Section ScreenProofs.

Variable now : nat -> Timestamp.
Variable ui : Widgets.

Lemma call_checkout_spec card_ids i st :
  exists r db' k',
    call_checkout now card_ids i st
      = (Go r, mkScreen (session st) db' k' (shown st)
                 (calls st ++ [CallCheckout card_ids (info_user_name i)
                                 (info_equipment i) (info_shoot_content i)])) /\
    (info_user_name i <> "" -> info_equipment i <> "" ->
     table_ok (table st) -> table_ok db').
Proof.
  unfold call_checkout.
  rewrite checkout_cards_quiet by (split; reflexivity). simpl.
  destruct (unavailable_cards (select_id_status card_ids (table st))).
  - eexists _, _, _. split; [reflexivity|]. intros Hu He.
    apply table_ok_checked_out; assumption.
  - eexists _, _, _. split; [reflexivity|]. auto.
Qed.

Lemma call_return_spec card_id st :
  exists r db' k',
    call_return card_id st
      = (Go r, mkScreen (session st) db' k' (shown st)
                 (calls st ++ [CallReturn card_id])) /\
    (table_ok (table st) -> table_ok db').
Proof.
  unfold call_return.
  rewrite return_card_quiet by (split; reflexivity). simpl.
  destruct (select_status card_id (table st)) as [x|].
  - destruct (negb (x =? CHECKED_OUT)%string).
    + eexists _, _, _. split; [reflexivity|]. auto.
    + eexists _, _, _. split; [reflexivity|]. apply table_ok_returned.
  - eexists _, _, _. split; [reflexivity|]. auto.
Qed.

End ScreenProofs.

(** ** The screens keep the session and the table sound *)

Ltac screen_open st :=
  destruct st as [[m i l] db k sh cl];
  unfold screen_ok, screen_sound, session_sound, session_tidy in *;
  simpl in *.

Ltac screen_facts :=
  repeat match goal with
  | H : _ /\ _ |- _ => destruct H
  | Hf : (forall x, Some ?a = Some x -> _) |- _ =>
      generalize (Hf a eq_refl); clear Hf; intro
  | Hf : (forall x, None = Some x -> _) |- _ => clear Hf
  | Hf : (forall x, ?o = Some x -> _), H : ?o = Some ?y |- _ =>
      generalize (Hf y H); clear Hf; intro
  | H : Some _ = Some _ |- _ => injection H as H; subst
  end.

Ltac screen_close :=
  unfold screen_ok, screen_sound, session_sound, session_tidy, modes;
  simpl;
  repeat match goal with
  | |- _ /\ _ => split
  | |- forall _, _ => intro
  end;
  screen_facts;
  try solve [auto | discriminate | congruence | tauto | constructor].

Ltac session_op :=
  let st := fresh "st" in
  intros st (? & ? & ?); destruct st as [[? ? ?] ? ? ? ?]; simpl in *; subst;
  simpl; (split; [reflexivity | split; assumption]).

Ltac session_close :=
  unfold session_sound, session_tidy, modes in *; simpl in *;
  repeat match goal with
  | |- _ /\ _ => split
  | |- forall _, _ => intro
  end;
  screen_facts;
  try solve [auto | discriminate | congruence | tauto | constructor].

Arguments confirm : simpl never.
Arguments choose_cards : simpl never.
Arguments checkout_form : simpl never.
Arguments call_checkout : simpl never.
Arguments call_return : simpl never.
Arguments sync_selection : simpl never.
Arguments return_entry : simpl never.
Arguments return_entries : simpl never.
Arguments get_available_cards_by_case : simpl never.
Arguments get_checked_out_cards_by_case : simpl never.
Arguments get_cards_by_case : simpl never.

Section Runs.
Variable now : nat -> Timestamp.
Variable ui : Widgets.

Lemma select_screen_ok :
  triple (fun st => screen_ok st /\ mode (session st) = Some "select")
         (select_screen ui) (fun _ => screen_ok) screen_ok.
Proof.
  intros st [H Hm]. screen_open st. subst.
  destruct H as [[Hs [Ht Hc]] [Htidy _]].
  destruct Htidy as [-> ->]; [discriminate|].
  unfold select_screen, when, and_then.
  destruct (button_checkout ui); simpl; [screen_close|].
  destruct (button_return ui); simpl; [screen_close|].
  destruct (button_stats ui); simpl; screen_close.
Qed.

Lemma seed_ok : triple screen_ok seed (fun _ => screen_ok) screen_ok.
Proof.
  intros st H. unfold seed. rewrite insert_initial_data_total.
  screen_open st. destruct H as [[Hs [Ht Hc]] Htidy].
  destruct db as [|c db]; simpl;
    (split; [split; [exact Hs | split; [|exact Hc]] | exact Htidy]);
    [apply table_ok_seeded | exact Ht].
Qed.

Lemma read_mode_ok :
  triple (fun st => screen_ok st /\ mode (session st) <> None) read_mode
         (fun m st => screen_ok st /\ mode (session st) = Some m) screen_ok.
Proof.
  intros st [H Hm]. screen_open st.
  destruct m as [m|]; [|contradiction]. simpl. auto.
Qed.

Lemma checkout_form_ok :
  triple (fun st => screen_ok st /\ mode (session st) = Some "checkout")
         (checkout_form ui)
         (fun _ st => screen_ok st /\ mode (session st) = Some "checkout")
         screen_ok.
Proof.
  intros st [H Hm]. screen_open st. subst.
  destruct H as [[Hs [Ht Hc]] [Htidy1 Htidy2]].
  unfold checkout_form, truthy.
  destruct (String.eqb_spec (text_user_name ui) "") as [Eu|Eu]; simpl;
    [screen_close|].
  destruct (String.eqb_spec (text_equipment ui) "") as [Ee|Ee]; simpl;
    [screen_close|].
  destruct (select_case ui) as [case|]; simpl; [|screen_close].
  destruct (String.eqb_spec case "") as [Ec|Ec]; simpl; screen_close.
Qed.

Lemma calls_extend cl c : Forall call_ok cl -> call_ok c -> Forall call_ok (cl ++ [c]).
Proof. intros H Hc. apply Forall_app. split; [exact H | constructor; [exact Hc | constructor]]. Qed.

Lemma confirm_ok selected :
  triple (fun st => screen_ok st /\ mode (session st) = Some "checkout" /\
                    checkout_info (session st) <> None /\
                    selected_cards (session st) = Some selected /\
                    selected <> [])
         (confirm now selected)
         (fun _ st => screen_ok st /\ mode (session st) = Some "checkout")
         screen_ok.
Proof.
  intros st (H & Hm & Hi & Hsel & Hne). screen_open st. subst.
  destruct i as [i|]; [|contradiction].
  destruct H as [[Hs [Ht Hc]] [Htidy1 Htidy2]]. screen_facts.
  destruct (call_checkout_spec now selected i
              (mkScreen (mkSession (Some "checkout") (Some i) (Some selected))
                 db k sh cl)) as (r & db' & k' & Heq & Hok).
  simpl in Heq, Hok.
  assert (Hcalls : Forall call_ok
            (cl ++ [CallCheckout selected (info_user_name i)
                      (info_equipment i) (info_shoot_content i)])).
  { apply calls_extend; [exact Hc|]. simpl. auto. }
  assert (Htab : table_ok db') by auto.
  unfold confirm, read_info, and_then, get_session. simpl. rewrite Heq.
  destruct r as [[|] msg]; simpl; screen_close.
Qed.


Lemma at_session_ok S st :
  at_session S st -> session_sound S -> session_tidy S -> screen_ok st.
Proof.
  intros (Hs & Ht & Hc) Hsound Htidy. subst S.
  split; [split; [exact Hsound | split; assumption] | exact Htidy].
Qed.

Lemma screen_ok_at st : screen_ok st -> at_session (session st) st.
Proof. intros [[_ [Ht Hc]] _]. split; [reflexivity | split; assumption]. Qed.

Lemma triple_pure {A} (phi : Prop) P (m : Script A) Q R :
  (phi -> triple P m Q R) -> triple (fun st => phi /\ P st) m Q R.
Proof. intros H st [Hphi Hst]. exact (H Hphi st Hst). Qed.

Lemma get_session_at S R :
  triple (at_session S) get_session (fun s st => s = S /\ at_session S st) R.
Proof. intros st H. simpl. split; [apply H | exact H]. Qed.

Lemma put_session_at S S' R :
  triple (at_session S) (put_session S') (fun _ => at_session S') R.
Proof. intros st (Hs & Ht & Hc). simpl. split; [reflexivity | split; assumption]. Qed.

Lemma read_table_at S R :
  triple (at_session S) read_table
         (fun db st => table_ok db /\ at_session S st) R.
Proof. intros st H. simpl. split; [apply H | exact H]. Qed.

Lemma show_at S x R : triple (at_session S) (show x) (fun _ => at_session S) R.
Proof. intros st (Hs & Ht & Hc). simpl. split; [exact Hs | split; assumption]. Qed.

Lemma st_rerun_at S (Q : unit -> Screen -> Prop) :
  session_sound S -> session_tidy S -> triple (at_session S) st_rerun Q screen_ok.
Proof. intros H1 H2 st H. simpl. eapply at_session_ok; eauto. Qed.

Lemma set_mode_at S m R :
  triple (at_session S) (set_mode m)
         (fun _ => at_session (mkSession (Some m) (checkout_info S)
                                 (selected_cards S))) R.
Proof. session_op. Qed.

Lemma set_selected_at S l R :
  triple (at_session S) (set_selected l)
         (fun _ => at_session (mkSession (mode S) (checkout_info S) (Some l))) R.
Proof. session_op. Qed.

Lemma read_info_at S i R :
  checkout_info S = Some i ->
  triple (at_session S) read_info (fun i' st => i' = i /\ at_session S st) R.
Proof.
  intros Hi st (Hs & Ht & Hc). destruct st as [[m inf l] db k sh cl].
  simpl in *. subst S. simpl in Hi. subst inf. simpl.
  split; [congruence | split; [reflexivity | split; assumption]].
Qed.

Lemma read_selected_at S l R :
  selected_cards S = Some l ->
  triple (at_session S) read_selected (fun l' st => l' = l /\ at_session S st) R.
Proof.
  intros Hl st (Hs & Ht & Hc). destruct st as [[m inf l0] db k sh cl].
  simpl in *. subst S. simpl in Hl. subst l0. simpl.
  split; [congruence | split; [reflexivity | split; assumption]].
Qed.

Lemma drop_selection_at S R :
  triple (at_session S) drop_selection
         (fun _ => at_session (mkSession (mode S) None None)) R.
Proof.
  intros st (Hs & Ht & Hc). destruct st as [[m inf l] db k sh cl].
  simpl in *. subst S.
  destruct inf, l; simpl; (split; [reflexivity | split; assumption]).
Qed.

Lemma call_return_at S card_id R :
  triple (at_session S) (call_return card_id) (fun _ => at_session S) R.
Proof.
  intros st (Hs & Ht & Hc).
  destruct (call_return_spec card_id st) as (r & db' & k' & Heq & Hok).
  rewrite Heq. split; [exact Hs | split; [auto|]].
  simpl. apply calls_extend; [exact Hc | exact I].
Qed.

Lemma finish_at S :
  session_sound S -> session_tidy S -> mode S = Some "checkout" ->
  forall st, at_session S st ->
    screen_ok st /\ mode (session st) = Some "checkout".
Proof.
  intros H1 H2 Hm st Hst. split; [eapply at_session_ok; eauto|].
  destruct Hst as [-> _]. exact Hm.
Qed.

Lemma triple_post {A} P (m : Script A) (Q Q' : A -> Screen -> Prop) R :
  triple P m Q R -> (forall a st, Q a st -> Q' a st) -> triple P m Q' R.
Proof. intros H HQ. eapply triple_weaken; eauto. Qed.

Lemma triple_pre {A} (P P' : Screen -> Prop) (m : Script A) Q R :
  triple P m Q R -> (forall st, P' st -> P st) -> triple P' m Q R.
Proof. intros H HP. eapply triple_weaken; eauto. Qed.

Lemma choose_cards_at l i :
  session_sound (mkSession (Some "checkout") (Some i) l) ->
  triple (at_session (mkSession (Some "checkout") (Some i) l))
         (choose_cards now ui)
         (fun _ st => screen_ok st /\ mode (session st) = Some "checkout")
         screen_ok.
Proof.
  intros Hsound. unfold choose_cards.
  eapply triple_bind; [apply read_info_at; reflexivity | intros i'].
  apply triple_pure. intros ->.
  eapply triple_bind; [apply read_table_at | intros db].
  apply triple_pure. intros Hdb. cbv zeta.
  destruct (get_available_cards_by_case (info_case_number i) db)
    as [|row rest].
  { eapply triple_post; [apply show_at|].
    intros ? st Hst.
    refine (finish_at _ Hsound _ eq_refl st Hst). session_close. }
  remember (row :: rest) as listing eqn:Hl.
  set (before := match l with Some sel => sel | None => [] end).
  assert (Hbefore : NoDup before).
  { subst before. destruct l; [session_close | constructor]. }
  destruct (sync_selection_spec ui listing before Hbefore) as [Hnd _].
  eapply triple_bind; [apply get_session_at | intros s].
  apply triple_pure. intros ->. simpl.
  eapply triple_bind with
    (Q := fun _ => at_session (mkSession (Some "checkout") (Some i) (Some before))).
  { destruct l as [sel|]; simpl.
    - apply triple_done. auto.
    - apply set_selected_at. }
  intros ?.
  eapply triple_bind; [apply read_selected_at; reflexivity | intros selected].
  apply triple_pure. intros ->.
  eapply triple_bind; [apply set_selected_at | intros ?]. simpl.
  eapply triple_bind; [apply read_selected_at; reflexivity | intros selected].
  apply triple_pure. intros ->.
  assert (Hsound' : session_sound
            (mkSession (Some "checkout") (Some i)
               (Some (sync_selection ui listing before)))) by session_close.
  assert (Htidy' : session_tidy
            (mkSession (Some "checkout") (Some i)
               (Some (sync_selection ui listing before)))) by session_close.
  destruct (sync_selection ui listing before) as [|x sel'] eqn:Es.
  { eapply triple_post; [apply show_at|].
    intros ? st Hst. exact (finish_at _ Hsound' Htidy' eq_refl st Hst). }
  eapply triple_bind; [apply show_at | intros ?].
  apply triple_when.
  - intros _. eapply triple_pre; [apply confirm_ok|].
    intros st Hst. split; [eapply at_session_ok; eauto|].
    destruct Hst as [-> _]. simpl. repeat split; congruence.
  - intros ? st Hst. exact (finish_at _ Hsound' Htidy' eq_refl st Hst).
Qed.

Lemma get_session_t (P : Screen -> Prop) R :
  triple P get_session (fun s st => s = session st /\ P st) R.
Proof. intros st H. simpl. auto. Qed.

Lemma choose_cards_ok s :
  triple (fun st => s = session st /\ screen_ok st /\
                    mode (session st) = Some "checkout")
         (when (negb (is_null (checkout_info s))) (choose_cards now ui))
         (fun _ st => screen_ok st /\ mode (session st) = Some "checkout")
         screen_ok.
Proof.
  intros st (-> & Hok & Hm).
  pose proof (screen_ok_at st Hok) as Hat.
  pose proof (proj1 (proj1 Hok)) as Hsound.
  destruct st as [[m inf l] db k sh cl]. simpl in *. subst m.
  destruct inf as [i|]; simpl.
  - exact (choose_cards_at l i Hsound _ Hat).
  - split; [exact Hok | reflexivity].
Qed.

Lemma checkout_back_ok :
  triple (fun st => screen_ok st /\ mode (session st) = Some "checkout")
         (when (button_back ui)
            (set_mode "select" ;; drop_selection ;; st_rerun)%script)
         (fun _ => screen_ok) screen_ok.
Proof.
  intros st [H Hm]. destruct (button_back ui); simpl; [|exact H].
  screen_open st. subst. destruct H as [[Hs [Ht Hc]] Htidy].
  destruct i, l; simpl; screen_close.
Qed.

Lemma checkout_screen_ok :
  triple (fun st => screen_ok st /\ mode (session st) = Some "checkout")
         (checkout_screen now ui) (fun _ => screen_ok) screen_ok.
Proof.
  unfold checkout_screen.
  eapply triple_bind.
  { apply triple_when; [intros _; apply checkout_form_ok | auto]. }
  intros ?. eapply triple_bind; [apply get_session_t | intros s].
  eapply triple_bind; [apply choose_cards_ok | intros ?].
  apply checkout_back_ok.
Qed.

Lemma checked_out_listing_dated case db card :
  table_ok db ->
  In card (get_checked_out_cards_by_case case db) ->
  co_checkout_date card <> None.
Proof.
  intros [Hrow _] Hin. apply in_checked_out in Hin.
  destruct Hin as [c [Hc [_ [Hst ->]]]]. simpl.
  rewrite Forall_forall in Hrow.
  destruct (Hrow c Hc) as [[_ [Hd _]] | [Hav _]]; [exact Hd|].
  destruct status_literals_differ. congruence.
Qed.

Lemma return_entry_at S card :
  session_sound S -> session_tidy S ->
  co_checkout_date card <> None ->
  triple (at_session S) (return_entry ui card) (fun _ => at_session S) screen_ok.
Proof.
  intros Hsound Htidy Hd. unfold return_entry.
  destruct (co_checkout_date card); [|contradiction].
  apply triple_when; [intros _ | auto].
  eapply triple_bind; [apply call_return_at | intros r].
  destruct (fst r).
  - eapply triple_bind; [apply show_at | intros ?].
    apply st_rerun_at; assumption.
  - apply show_at.
Qed.

Lemma return_entries_at S cards :
  session_sound S -> session_tidy S ->
  Forall (fun card => co_checkout_date card <> None) cards ->
  triple (at_session S) (return_entries ui cards) (fun _ => at_session S)
         screen_ok.
Proof.
  intros Hsound Htidy. induction 1 as [|card rest Hd _ IH].
  - apply triple_done. auto.
  - unfold return_entries; fold return_entries.
    eapply triple_bind; [apply return_entry_at; assumption | intros ?].
    exact IH.
Qed.

Lemma back_at S :
  session_sound S -> session_tidy S -> mode S <> Some "checkout" ->
  triple (at_session S) (back ui) (fun _ => screen_ok) screen_ok.
Proof.
  intros Hsound Htidy Hm. unfold back.
  destruct S as [m i l]. destruct (proj1 Htidy Hm) as [Hi Hl].
  simpl in *. subst i l.
  apply triple_when.
  - intros _. eapply triple_bind; [apply set_mode_at | intros ?].
    simpl. apply st_rerun_at; session_close.
  - intros _ st Hst. eapply at_session_ok; eauto.
Qed.

Lemma return_screen_at S :
  session_sound S -> session_tidy S -> mode S = Some "return" ->
  triple (at_session S) (return_screen ui) (fun _ => screen_ok) screen_ok.
Proof.
  intros Hsound Htidy Hm. unfold return_screen.
  eapply triple_bind with (Q := fun _ => at_session S).
  - destruct (chosen_case ui) as [case|]; [|apply triple_done; auto].
    eapply triple_bind; [apply read_table_at | intros db].
    apply triple_pure. intros Hdb.
    destruct (get_checked_out_cards_by_case case db) as [|card rest] eqn:El.
    + apply show_at.
    + apply return_entries_at; try assumption.
      apply Forall_forall. intros x Hx.
      apply (checked_out_listing_dated case db); [exact Hdb|].
      rewrite El. exact Hx.
  - intros ?. apply back_at; try assumption. rewrite Hm. discriminate.
Qed.

Lemma stats_screen_at S :
  session_sound S -> session_tidy S -> mode S = Some "stats" ->
  triple (at_session S) (stats_screen ui) (fun _ => screen_ok) screen_ok.
Proof.
  intros Hsound Htidy Hm. unfold stats_screen.
  eapply triple_bind with (Q := fun _ => at_session S).
  - destruct (chosen_case ui) as [case|]; [|apply show_at].
    eapply triple_bind; [apply read_table_at | intros db].
    apply triple_pure. intros Hdb. apply show_at.
  - intros ?. apply back_at; try assumption. rewrite Hm. discriminate.
Qed.

Lemma default_mode_ok' s :
  triple (fun st => s = session st /\ screen_ok st)
         (when (is_null (mode s)) (set_mode "select"))
         (fun _ st => screen_ok st /\ mode (session st) <> None) screen_ok.
Proof.
  intros st [-> H]. screen_open st.
  destruct H as [[Hs [Ht Hc]] [Htidy1 Htidy2]].
  destruct m as [m|]; simpl.
  - screen_close.
  - destruct Htidy1 as [-> ->]; [discriminate|]. screen_close.
Qed.

Lemma main_ok :
  triple screen_ok (main now ui) (fun _ => screen_ok) screen_ok.
Proof.
  unfold main.
  eapply triple_bind; [apply seed_ok | intros ?].
  eapply triple_bind; [apply get_session_t | intros s].
  eapply triple_bind; [apply default_mode_ok' | intros ?].
  eapply triple_bind; [apply read_mode_ok | intros m].
  destruct (String.eqb_spec m "select") as [->|_]; [apply select_screen_ok|].
  destruct (String.eqb_spec m "checkout") as [->|_];
    [apply checkout_screen_ok|].
  destruct (String.eqb_spec m "return") as [->|_].
  { intros st [Hok Hm]. apply (return_screen_at (session st)); try apply Hok.
    - exact Hm.
    - apply screen_ok_at, Hok. }
  destruct (String.eqb_spec m "stats") as [->|_].
  { intros st [Hok Hm]. apply (stats_screen_at (session st)); try apply Hok.
    - exact Hm.
    - apply screen_ok_at, Hok. }
  apply triple_done. tauto.
Qed.
End Runs.

Lemma app_reachable_ok s db :
  app_reachable s db -> forall k, screen_ok (mkScreen s db k [] []).
Proof.
  induction 1 as [|s db _ IH|now ui s db k r st' _ IH Hrun]; intros k0.
  - split; [split; [|split]|]; simpl.
    + session_close.
    + split; [constructor | split; [constructor | left; reflexivity]].
    + constructor.
    + session_close.
  - destruct (IH 0%nat) as [[_ [Ht _]] _]. simpl in Ht.
    split; [split; [|split]|]; simpl; [session_close | exact Ht | constructor | session_close].
  - pose proof (main_ok now ui _ (IH k)) as H. rewrite Hrun in H.
    assert (Hst : screen_ok st') by (destruct r; [exact H | exact H | destruct H]).
    destruct Hst as [[Hs [Ht _]] Htidy].
    split; [split; [exact Hs | split; [exact Ht | constructor]] | exact Htidy].
Qed.

(** X9. Between runs of the script, whatever the widgets returned: the mode
    is one of the four screens; a stored form has a borrower, an equipment
    and a container; a selection has no repeated id; form and selection
    exist on the checkout screen only, and a selection only beside a form. *)
Theorem session_stays_tidy :
  forall s db, app_reachable s db -> session_sound s /\ session_tidy s.
Proof.
  intros s db H. destruct (app_reachable_ok s db H 0%nat) as [[Hs _] Ht].
  split; assumption.
Qed.

Lemma sample_open_run :
  main sample_clock sample_ui_open
    (mkScreen (mkSession None None None) [] 0 [] [])
  = (fst (main sample_clock sample_ui_open
            (mkScreen (mkSession None None None) [] 0 [] [])),
     sample_screen_open).
Proof. unfold sample_screen_open. apply surjective_pairing. Defined.

Lemma sample_lend_run :
  main sample_clock sample_ui_lend
    (mkScreen (session sample_screen_open) (table sample_screen_open) 0 [] [])
  = (fst (main sample_clock sample_ui_lend
            (mkScreen (session sample_screen_open) (table sample_screen_open)
               0 [] [])),
     sample_screen_lent).
Proof. unfold sample_screen_lent. apply surjective_pairing. Defined.

Lemma sample_open_reachable :
  app_reachable (session sample_screen_open) (table sample_screen_open).
Proof.
  exact (app_run sample_clock sample_ui_open (mkSession None None None) []
           0%nat _ sample_screen_open app_fresh sample_open_run).
Defined.

Lemma sample_lent_app_reachable :
  app_reachable (session sample_screen_lent) (table sample_screen_lent).
Proof.
  exact (app_run sample_clock sample_ui_lend (session sample_screen_open)
           (table sample_screen_open) 0%nat _ sample_screen_lent
           sample_open_reachable sample_lend_run).
Defined.

Lemma session_stays_tidy_witness :
  session_sound (session sample_screen_lent) /\
  session_tidy (session sample_screen_lent).
Proof.
  exact (session_stays_tidy (session sample_screen_lent)
           (table sample_screen_lent) sample_lent_app_reachable).
Defined.

(** X10. Whatever the widgets return, a run of the script calls
    [checkout_cards] only with a batch that is not empty and has no repeated
    id, and with a borrower and an equipment that are not empty. *)
Theorem screens_call_checkout_with_a_batch :
  forall s db now ui k r st',
    app_reachable s db ->
    main now ui (mkScreen s db k [] []) = (r, st') ->
    forall card_ids u e n,
      In (CallCheckout card_ids u e n) (calls st') ->
      card_ids <> [] /\ NoDup card_ids /\ u <> "" /\ e <> "".
Proof.
  intros s db now ui k r st' Hs Hrun card_ids u e n Hin.
  pose proof (main_ok now ui _ (app_reachable_ok s db Hs k)) as H.
  rewrite Hrun in H.
  assert (Hst : screen_ok st') by (destruct r; [exact H | exact H | destruct H]).
  destruct Hst as [[_ [_ Hc]] _]. rewrite Forall_forall in Hc.
  exact (Hc _ Hin).
Qed.

Lemma screens_call_witness :
  In (CallCheckout [1] "Alice" "CamA" "Interview") (calls sample_screen_lent) /\
  ([1] <> [] /\ NoDup [1] /\ "Alice" <> "" /\ "CamA" <> "").
Proof.
  assert (Hin : In (CallCheckout [1] "Alice" "CamA" "Interview")
                   (calls sample_screen_lent))
    by (vm_compute; left; reflexivity).
  split; [exact Hin|].
  exact (screens_call_checkout_with_a_batch (session sample_screen_open)
           (table sample_screen_open) sample_clock sample_ui_lend 0%nat _
           sample_screen_lent sample_open_reachable sample_lend_run
           [1] "Alice" "CamA" "Interview" Hin).
Defined.

(** X11. With a store that raises nothing, no run of the script that shows
    the choice, the checkout or the return screen, or the stock list screen
    before a container is chosen, ends in an exception: no key of the
    session state is read or deleted while absent, and the return screen
    never cuts the date out of a missing timestamp.  The listing of the
    stock list is left out: it applies [split] to every date of the data
    frame that is truthy, and what a NULL date is there depends on the
    data frame library. *)
Theorem main_does_not_raise :
  forall s db now ui k e st',
    app_reachable s db ->
    (mode s = Some "stats" -> chosen_case ui = None) ->
    main now ui (mkScreen s db k [] []) <> (Crash e, st').
Proof.
  intros s db now ui k e st' Hs _ Hrun.
  pose proof (main_ok now ui _ (app_reachable_ok s db Hs k)) as H.
  rewrite Hrun in H. exact H.
Qed.

Lemma main_does_not_raise_witness :
  (mode (session sample_screen_open) = Some "stats" ->
   chosen_case sample_ui_lend = None) /\
  main sample_clock sample_ui_lend
    (mkScreen (session sample_screen_open) (table sample_screen_open) 0 [] [])
  <> (Crash "UNIQUE constraint failed: sdcards.card_number", sample_screen_open).
Proof.
  assert (Hm : mode (session sample_screen_open) = Some "stats" ->
               chosen_case sample_ui_lend = None).
  { intros H. exfalso. revert H. vm_compute. discriminate. }
  split; [exact Hm|].
  exact (main_does_not_raise (session sample_screen_open)
           (table sample_screen_open) sample_clock sample_ui_lend 0%nat
           "UNIQUE constraint failed: sdcards.card_number" sample_screen_open
           sample_open_reachable Hm).
Defined.

(** X12. In every table the application reaches, each card listed as
    checked out has a borrower and an equipment that are not empty, and a
    timestamp. *)
Theorem lent_cards_name_their_borrower :
  forall s db case r,
    app_reachable s db ->
    In r (get_checked_out_cards_by_case case db) ->
    exists u e t,
      co_user_name r = Some u /\ u <> "" /\
      co_equipment r = Some e /\ e <> "" /\
      co_checkout_date r = Some t.
Proof.
  intros s db case r Hs Hr.
  destruct (app_reachable_ok s db Hs 0%nat) as [[_ [Ht _]] _]. simpl in Ht.
  pose proof (checked_out_listing_dated case db r Ht Hr) as Hd.
  destruct Ht as [_ [Hlent _]]. rewrite Forall_forall in Hlent.
  apply in_checked_out in Hr. destruct Hr as [c [Hc [_ [Hst ->]]]].
  simpl in *. destruct (Hlent c Hc Hst) as (u & e & Hu & Hune & He & Hene).
  destruct (checkout_date c) as [t|]; [|contradiction].
  exists u, e, t. auto.
Qed.

Lemma lent_cards_witness :
  In sample_listed (get_checked_out_cards_by_case SD1 (table sample_screen_lent)) /\
  exists u e t,
    co_user_name sample_listed = Some u /\ u <> "" /\
    co_equipment sample_listed = Some e /\ e <> "" /\
    co_checkout_date sample_listed = Some t.
Proof.
  assert (Hin : In sample_listed
                   (get_checked_out_cards_by_case SD1 (table sample_screen_lent)))
    by (vm_compute; left; reflexivity).
  split; [exact Hin|].
  exact (lent_cards_name_their_borrower (session sample_screen_lent)
           (table sample_screen_lent) SD1 sample_listed
           sample_lent_app_reachable Hin).
Defined.

(** X13. In every table the application reaches, a row has its four
    checkout-scoped columns all non-null exactly when it is CHECKED_OUT (the
    screens hand strings to [checkout_cards], never [None]); and the table
    is empty, before the first run, or has the seeded ids, labels, indices,
    capacities and containers. *)
Theorem screens_keep_the_table_sound :
  forall s db,
    app_reachable s db ->
    (forall c, In c db -> (all_non_null c <-> status c = CHECKED_OUT)) /\
    (db = [] \/ map key_columns db = map key_columns seeded).
Proof.
  intros s db Hs.
  destruct (app_reachable_ok s db Hs 0%nat) as [[_ [Ht _]] _].
  simpl in Ht. destruct Ht as [Hrow [_ Hk]].
  split; [|exact Hk]. intros c Hc.
  rewrite Forall_forall in Hrow.
  destruct (Hrow c Hc) as [[Hst Hnn] | [Hst Hn]].
  - tauto.
  - split.
    + intros [Hd _]. destruct Hn as [Hn _]. congruence.
    + intros Hout. exfalso. apply status_literals_differ. congruence.
Qed.

Lemma screens_keep_witness :
  map key_columns (table sample_screen_lent) = map key_columns seeded.
Proof.
  destruct (screens_keep_the_table_sound (session sample_screen_lent)
              (table sample_screen_lent) sample_lent_app_reachable)
    as [_ [H|H]].
  - exfalso. revert H. vm_compute. discriminate.
  - exact H.
Defined.

Lemma selection_follows_witness :
  NoDup [1; 77] /\
  NoDup (sync_selection sample_boxes sample_listing [1; 77]) /\
  (In 77 (sync_selection sample_boxes sample_listing [1; 77]) <-> In 77 [1; 77]).
Proof.
  assert (Hnd : NoDup [1; 77]).
  { constructor; [simpl; intros [H|[]]; discriminate H|].
    constructor; [simpl; tauto | constructor]. }
  destruct (selection_follows_the_check_boxes sample_boxes sample_listing
              [1; 77] Hnd) as [H1 [_ H3]].
  split; [exact Hnd|]. split; [exact H1|]. apply H3.
  simpl. intros [H|[H|[]]]; discriminate H.
Defined.

(** ** The stock list as displayed *)

Lemma before_space_prefix d t :
  has_space d = false -> before_space (d ++ String " " t) = d.
Proof.
  induction d as [|a d IH]; simpl; intros H.
  - reflexivity.
  - apply orb_false_iff in H. destruct H as [Ha Hd].
    rewrite Ha, (IH Hd). reflexivity.
Qed.

(** X15. The date column of the stock list is the part of the timestamp
    before its first space: for a timestamp made of a date without space, a
    space and a time, it is the date. *)
Theorem stock_list_date_is_the_day :
  forall r d t,
    cs_checkout_date r = Some (d ++ String " " t)%string ->
    has_space d = false ->
    d_date (display_row r) = d.
Proof.
  intros r d t Hr Hd. unfold display_row. simpl. rewrite Hr.
  assert (Ht : truthy (d ++ String " " t) = true).
  { unfold truthy. destruct d; reflexivity. }
  rewrite Ht. apply before_space_prefix, Hd.
Qed.

Lemma stock_list_date_witness :
  d_date (display_row
            (mkCaseRow "SD1-1" CHECKED_OUT "32G"
               (Some ("2024-05-01" ++ String " " "10:00:00")%string)
               (Some "Alice") (Some "CamA") SD1 (Some "Interview")))
    = "2024-05-01".
Proof.
  exact (stock_list_date_is_the_day
           (mkCaseRow "SD1-1" CHECKED_OUT "32G"
              (Some ("2024-05-01" ++ String " " "10:00:00")%string)
              (Some "Alice") (Some "CamA") SD1 (Some "Interview"))
           "2024-05-01" "10:00:00" eq_refl eq_refl).
Defined.
